(** * Authenticated HTTP access layer and entity stores of the chat front end

    A shallow embedding of
    - [lib/api.ts]: the axios instance [api] with its request interceptor
      (bearer injection) and its response interceptor (refresh on 401 and
      replay), together with [authService.ts] (the credential store);
    - [useSession], [useDocuments], [useQuery], [SessionPanel] and [ChatPage]:
      the React state containers and the page handlers that drive them.

    JavaScript runs one task at a time: a response handler runs to its next
    [await] before any other network event is handled.  The pipeline is
    therefore a machine whose steps are the network events. *)

From stdpp Require Import gmap strings list.

Module Api.

(** ** Data: [app/config/api.ts], axios requests, responses and errors *)

Definition REFRESH : string := "/auth/refresh".
Definition LOGIN_PAGE : string := "/login".

Inductive Method := GET | POST | DELETE.

(** An axios request configuration.  [Authorization] is
    [config.headers.Authorization]; [_retry] is the flag the response
    interceptor attaches to the configuration ([undefined] reads as [false]). *)
Record Config := mkConfig {
  url : string;
  method : Method;
  data : option string;
  Authorization : option string;
  _retry : bool;
}.

(** What the pipeline reads of a response: [status], [data.detail] and
    [data.token.access_token]; the rest of the body is [payload]. *)
Record Response := mkResponse {
  status : nat;
  detail : option string;
  access_token : option string;
  payload : string;
}.

(** An [AxiosError]: [error.config] is the configuration as it was sent, and
    [error.response] is absent when no answer came back (connection failure,
    timeout). *)
Record AxiosError := mkError {
  config : Config;
  response : option Response;
}.

(** What the network does with one dispatched request. *)
Inductive NetOutcome :=
| Replied (r : Response)
| NoReply.

(** How the promise returned by [api(config)] settles. *)
Inductive Result :=
| Resolved (r : Response)
| Rejected (e : AxiosError).

(** The suspended [await api.post(REFRESH)] of one run of the response error
    handler: the request that got the 401, the number of times that request
    has been dispatched so far, and the [error] the handler was called with. *)
Record Frame := mkFrame {
  originalRequest : Config;
  attempts : nat;
  error : AxiosError;
}.

(** One call of [api] by the application.  While it is pending exactly one
    request is on the network for it: the request itself (no frame), or a
    refresh request issued on its behalf (the frames are the handlers that
    wait for it, innermost first).  [n] counts the dispatches of the request
    that is in flight. *)
Inductive Task :=
| InFlight (n : nat) (cfg : Config) (k : list Frame)
| Settled (res : Result).

(** A request handed to the network: the call it belongs to, the number of
    handlers waiting for it (0 for the request of the call itself, more for a
    refresh request issued on its behalf), the ordinal of this dispatch among
    the dispatches of the same request (1 for the first one, 2 for its
    replay), and the configuration that left the request interceptor. *)
Record Dispatch := mkDispatch {
  d_task : nat;
  d_depth : nat;
  d_attempt : nat;
  d_config : Config;
}.

(** The module state of [authService.ts] and [api.ts], the browser location
    assignments, and the pending calls. *)
Record State := mkState {
  _accessToken : option string;
  isRefreshing : bool;
  navigations : list string;
  nextId : nat;
  tasks : gmap nat Task;
  wire : list Dispatch;
}.

Definition set_accessToken (t : option string) (st : State) : State :=
  mkState t (isRefreshing st) (navigations st) (nextId st) (tasks st) (wire st).
Definition set_isRefreshing (b : bool) (st : State) : State :=
  mkState (_accessToken st) b (navigations st) (nextId st) (tasks st) (wire st).
Definition navigate (href : string) (st : State) : State :=
  mkState (_accessToken st) (isRefreshing st) (navigations st ++ [href])
          (nextId st) (tasks st) (wire st).
Definition set_task (tid : nat) (t : Task) (st : State) : State :=
  mkState (_accessToken st) (isRefreshing st) (navigations st) (nextId st)
          (<[tid := t]> (tasks st)) (wire st).
Definition push_wire (d : Dispatch) (st : State) : State :=
  mkState (_accessToken st) (isRefreshing st) (navigations st) (nextId st)
          (tasks st) (wire st ++ [d]).
Definition bump_nextId (st : State) : State :=
  mkState (_accessToken st) (isRefreshing st) (navigations st) (S (nextId st))
          (tasks st) (wire st).

(** ** [authService.ts] *)

Definition getAccessToken (st : State) : option string := _accessToken st.
Definition setAccessToken (token : option string) (st : State) : State :=
  set_accessToken token st.
Definition clearAccessToken (st : State) : State := set_accessToken None st.

(** JavaScript truthiness of a [string | null]: neither [null] nor empty. *)
Definition truthy (s : option string) : bool :=
  match s with
  | Some t => negb (String.eqb t "")
  | None => false
  end.

(** ** The request interceptor *)

Definition with_Authorization (h : option string) (c : Config) : Config :=
  mkConfig (url c) (method c) (data c) h (_retry c).
Definition with_retry (b : bool) (c : Config) : Config :=
  mkConfig (url c) (method c) (data c) (Authorization c) b.

Definition requestInterceptor (token : option string) (config : Config) : Config :=
  match token with
  | Some t =>
      if truthy token
      then with_Authorization (Some ("Bearer " +:+ t)) config
      else config
  | None => config
  end.

(** Running the request interceptor and handing the request to the network. *)
Definition send (tid n : nat) (cfg : Config) (k : list Frame) (st : State) : State :=
  let cfg' := requestInterceptor (getAccessToken st) cfg in
  push_wire (mkDispatch tid (length k) n cfg') (set_task tid (InFlight n cfg' k) st).

(** [api(config)] called by the application. *)
Definition call (cfg : Config) (st : State) : State :=
  send (nextId st) 1 cfg [] (bump_nextId st).

(** [api.post(API_CONFIG.ENDPOINTS.AUTH.REFRESH)] *)
Definition refreshRequest : Config := mkConfig REFRESH POST None None false.

(** ** The response interceptor *)

(** [error.response?.status === 401] *)
Definition is401 (e : AxiosError) : bool :=
  match response e with
  | Some r => Nat.eqb (status r) 401
  | None => false
  end.

(** axios' default [validateStatus]. *)
Definition ok2xx (r : Response) : bool :=
  Nat.leb 200 (status r) && Nat.ltb (status r) 300.

(** The promise of the request in flight rejects with [e].  With no handler
    waiting the call settles.  Otherwise [e] is the [refreshError] thrown at
    the innermost [await api.post(REFRESH)]: its [catch] block runs, and the
    handler returns a rejection, which in turn rejects the request that
    handler belongs to. *)
Fixpoint reject (tid : nat) (e : AxiosError) (k : list Frame) (st : State) : State :=
  match k with
  | [] => set_task tid (Settled (Rejected e)) st
  | f :: k' =>
      let st := set_isRefreshing false st in
      if is401 e
      then reject tid e k' (navigate LOGIN_PAGE (clearAccessToken st))
      else reject tid (error f) k' st
  end.

(** The promise of the request in flight resolves with [resp].  With no
    handler waiting the call settles.  Otherwise the innermost handler resumes
    after [await api.post(REFRESH)]: it stores the new token if there is one,
    lowers [isRefreshing] and returns [api(originalRequest)]. *)
Definition resolve (tid : nat) (resp : Response) (k : list Frame) (st : State) : State :=
  match k with
  | [] => set_task tid (Settled (Resolved resp)) st
  | f :: k' =>
      let newToken := access_token resp in
      let st := if truthy newToken then setAccessToken newToken st else st in
      let st := set_isRefreshing false st in
      send tid (S (attempts f)) (originalRequest f) k' st
  end.

(** The error handler of [api.interceptors.response.use], up to its first
    suspension.  [error.config] and [originalRequest] are one object: setting
    [_retry] on the one shows in the other.  The error of a dispatched request
    always has its [config], so the tests [if (originalRequest)] succeed. *)
Definition responseError (tid n : nat) (err : AxiosError) (k : list Frame) (st : State) : State :=
  if is401 err && negb (_retry (config err)) then
    let originalRequest := with_retry true (config err) in
    let err := mkError originalRequest (response err) in
    if isRefreshing st then
      send tid (S n) originalRequest k st
    else
      let st := set_isRefreshing true st in
      send tid 1 refreshRequest (mkFrame originalRequest n err :: k) st
  else
    reject tid err k st.

(** The network answers the request in flight for call [tid]. *)
Definition deliver (tid : nat) (o : NetOutcome) (st : State) : State :=
  match tasks st !! tid with
  | Some (InFlight n cfg k) =>
      match o with
      | Replied r =>
          if ok2xx r then resolve tid r k st
          else responseError tid n (mkError cfg (Some r)) k st
      | NoReply => responseError tid n (mkError cfg None) k st
      end
  | _ => st
  end.

(** ** Runs *)

(** What can happen next: the application starts a call, the network answers
    a pending one, or [AuthContext] writes the credential store (login,
    signup, logout). *)
Inductive Event :=
| Call (cfg : Config)
| Deliver (tid : nat) (o : NetOutcome)
| StoreToken (token : option string).

Definition step (st : State) (ev : Event) : State :=
  match ev with
  | Call cfg => call cfg st
  | Deliver tid o => deliver tid o st
  | StoreToken token => setAccessToken token st
  end.

Definition run (evs : list Event) (st : State) : State := fold_left step evs st.

(** The state when the module is loaded, with [token] in the store. *)
Definition init (token : option string) : State :=
  mkState token false [] 0 ∅ [].

Definition outcome (tid : nat) (st : State) : option Result :=
  match tasks st !! tid with
  | Some (Settled r) => Some r
  | _ => None
  end.

(** The dispatches of the request of call [tid] itself, and the number of
    dispatches that went to the refresh endpoint. *)
Definition own_dispatch (tid : nat) (d : Dispatch) : bool :=
  Nat.eqb (d_task d) tid && Nat.eqb (d_depth d) 0.
Definition dispatches (tid : nat) (w : list Dispatch) : nat :=
  length (filter (λ d, own_dispatch tid d = true) w).
Definition refresh_dispatches (w : list Dispatch) : nat :=
  length (filter (λ d, url (d_config d) = REFRESH) w).

(** ** Counters of the pipeline

    A handler that waits for a refresh belongs to a request that was
    dispatched once and is marked [_retry]. *)
Definition frame_ok (f : Frame) : Prop :=
  attempts f ≤ 1 ∧ _retry (originalRequest f) = true.

(** The number of dispatches of the request of the call itself: the one in
    flight, or the one the outermost waiting handler belongs to. *)
Definition root_attempts (n : nat) (k : list Frame) : nat :=
  match last k with
  | Some f => attempts f
  | None => n
  end.

(** The counters of a pending call agree with the [c] dispatches on the wire:
    a request not yet marked [_retry] has been dispatched once, a marked one
    at most twice. *)
Definition task_ok (c : nat) (t : Task) : Prop :=
  match t with
  | InFlight n cfg k =>
      Forall frame_ok k ∧ n ≤ 2 ∧ (_retry cfg = false → n ≤ 1) ∧ c = root_attempts n k
  | Settled _ => c ≤ 2
  end.

(** Every call agrees with the wire, and identifiers not yet handed out have
    no call and no dispatch. *)
Definition inv3 (ts : gmap nat Task) (w : list Dispatch) (nx : nat) : Prop :=
  (∀ tid t, ts !! tid = Some t → task_ok (dispatches tid w) t) ∧
  (∀ tid, nx ≤ tid → ts !! tid = None) ∧
  (∀ tid, ts !! tid = None → dispatches tid w = 0).
Definition inv (st : State) : Prop := inv3 (tasks st) (wire st) (nextId st).

(** All the dispatches made for call [tid]: its request, the replay, and the
    refresh requests issued on its behalf. *)
Definition all_dispatches (tid : nat) (w : list Dispatch) : nat :=
  length (filter (λ d, d_task d = tid) w).

(** A call that waits for a refresh. *)
Definition waiting (t : Task) : bool :=
  match t with
  | InFlight _ _ (_ :: _) => true
  | _ => false
  end.

(** The dispatches a pending call can still cause: an unmarked request may be
    followed by a refresh request, the replay of that refresh request and its
    own replay; a call that waits for a refresh by the replay of the refresh
    request, if that one is unmarked, and by the replay of its own request. *)
Definition remaining (t : Task) : nat :=
  match t with
  | InFlight _ cfg [] => if _retry cfg then 0 else 3
  | InFlight _ cfg (_ :: _) => (if _retry cfg then 0 else 1) + 1
  | Settled _ => 0
  end.

(** At most one call waits for a refresh, with one handler, and only while
    [isRefreshing] is up. *)
Definition single_flight (st : State) : Prop :=
  (∀ tid n cfg k, tasks st !! tid = Some (InFlight n cfg k) → length k ≤ 1)
  ∧ (∀ tid t, tasks st !! tid = Some t → waiting t = true → isRefreshing st = true)
  ∧ (∀ tid1 tid2 t1 t2,
       tasks st !! tid1 = Some t1 → tasks st !! tid2 = Some t2 →
       waiting t1 = true → waiting t2 = true → tid1 = tid2).

(** No call causes more than four dispatches. *)
Definition bounded (st : State) : Prop :=
  ∀ tid,
    match tasks st !! tid with
    | Some t => all_dispatches tid (wire st) + remaining t ≤ 4
    | None => all_dispatches tid (wire st) = 0
    end.

Definition invariants (st : State) : Prop := inv st ∧ single_flight st ∧ bounded st.

(** What a delivery to a pending call does to the call, the wire and the
    flag: it settles the call, replays its request at once, starts a refresh,
    or resumes after a refresh. *)
Inductive delivered (st st' : State) (tid n : nat) (cfg : Config) (k : list Frame) : Prop :=
| d_settled res :
    tasks st' = <[tid := Settled res]> (tasks st) →
    wire st' = wire st →
    isRefreshing st' = match k with [] => isRefreshing st | _ => false end →
    delivered st st' tid n cfg k
| d_replayed cfg' d :
    isRefreshing st = true → _retry cfg = false → _retry cfg' = true →
    tasks st' = <[tid := InFlight (S n) cfg' k]> (tasks st) →
    wire st' = wire st ++ [d] → d_task d = tid →
    isRefreshing st' = true →
    delivered st st' tid n cfg k
| d_refreshing f rc d :
    isRefreshing st = false → _retry cfg = false → _retry rc = false →
    tasks st' = <[tid := InFlight 1 rc (f :: k)]> (tasks st) →
    wire st' = wire st ++ [d] → d_task d = tid →
    isRefreshing st' = true →
    delivered st st' tid n cfg k
| d_resumed f k' cfg' d :
    k = f :: k' → _retry cfg' = _retry (originalRequest f) →
    tasks st' = <[tid := InFlight (S (attempts f)) cfg' k']> (tasks st) →
    wire st' = wire st ++ [d] → d_task d = tid →
    isRefreshing st' = false →
    delivered st st' tid n cfg k.

(** A failure of a request that is not an answer with status 401: no answer
    at all, or an answer outside 2xx other than 401. *)
Definition transient (o : NetOutcome) : bool :=
  match o with
  | NoReply => true
  | Replied r => negb (ok2xx r) && negb (Nat.eqb (status r) 401)
  end.

(** ** Sample requests and answers *)

Definition getSessions : Config := mkConfig "/sessions" GET None None false.
Definition getDocuments : Config :=
  mkConfig "/sessions/s1/documents" GET None None false.

Definition unauthorized : Response :=
  mkResponse 401 (Some "Not authenticated") None "".
Definition refreshDenied : Response :=
  mkResponse 401 (Some "Invalid refresh token") None "".
Definition renewed : Response := mkResponse 200 None (Some "new") "".
Definition noToken : Response := mkResponse 200 None None "{}".
Definition unavailable : Response :=
  mkResponse 503 (Some "Service unavailable") None "".
Definition sessionsPage : Response := mkResponse 200 None None "{sessions: []}".

(** One call in flight for [GET /sessions], sent with the token ["old"]. *)
Definition oneCall : State := call getSessions (init (Some "old")).

(** Two calls in flight, both sent with the token ["old"], each answered 401:
    the first answer starts the refresh, the second arrives while the refresh
    is pending. *)
Definition bothUnauthorized : State :=
  run [Call getSessions; Call getDocuments;
       Deliver 0 (Replied unauthorized); Deliver 1 (Replied unauthorized)]
      (init (Some "old")).

(** The refresh then succeeds, and the two replays are answered: the one sent
    with the old token by 401, the one sent with the new token by 200. *)
Definition bothSettled : State :=
  run [Deliver 0 (Replied renewed); Deliver 1 (Replied unauthorized);
       Deliver 0 (Replied sessionsPage)]
      bothUnauthorized.

End Api.

Module Chat.

(** ** Entities: [session/types], [query/types], [document/types] *)

Record Session := mkSession {
  id : string;
  session_id : string;
  name : string;
  description : option string;
  document_count : nat;
  created_at : string;
  last_activity_at : string;
  is_active : bool;
}.

(** [SessionCreate]: the body of [POST /sessions]. *)
Record SessionCreate := mkSessionCreate {
  create_name : string;
  create_description : option string;
}.

Inductive MessageRole := user | assistant.

(** Objects the client only passes along (citations, routing and visual
    decisions) are kept as their JSON text. *)
Definition Json := string.

Record Metadata := mkMetadata {
  citations : list Json;
  routing : option Json;
  visual_decision : option Json;
  processing_time_ms : nat;
}.

Record SessionMessage := mkMessage {
  msg_id : string;
  msg_session_id : string;
  role : MessageRole;
  content : string;
  metadata : option Metadata;
  msg_created_at : string;
}.

Record QueryRequest := mkQueryRequest {
  query : string;
  stream : bool;
  include_sources : bool;
}.

Record QueryResponse := mkQueryResponse {
  success : bool;
  qr_query : string;
  answer : string;
  qr_citations : list Json;
  qr_routing : option Json;
  qr_visual_decision : option Json;
  qr_processing_time_ms : nat;
  qr_session_id : string;
}.

Inductive DocumentStatus := uploaded | processing | indexed | failed.

Record Document := mkDocument {
  doc_id : string;
  doc_session_id : string;
  file_name : string;
  file_size : nat;
  content_type : string;
  doc_status : DocumentStatus;
  chunk_count : option nat;
  page_count : option nat;
  error_message : option string;
  processed_at : option string;
  doc_created_at : string;
}.

(** One reading of the clock: [Date.now()] in decimal and
    [new Date().toISOString()]. *)
Record Clock := mkClock {
  now : string;
  toISOString : string;
}.

(** ** Requests of the stores

    The calls the stores make through [api], indexed by the type of the
    response body they read.  A list that the body may lack
    ([response.data.sessions || []]) is an [option]. *)
Inductive Endpoint : Type → Type :=
| ListSessions : Endpoint (option (list Session))
| CreateSession (body : SessionCreate) : Endpoint Session
| GetSession (sessionId : string) : Endpoint Session
| ListMessages (sessionId : string) : Endpoint (option (list SessionMessage))
| DeleteSession (sessionId : string) : Endpoint unit
| ListDocuments (sessionId : string) : Endpoint (option (list Document))
| DeleteDocument (documentId : string) : Endpoint unit
| AskQuery (sessionId : string) (body : QueryRequest) : Endpoint QueryResponse.

(** Method and path of each request, from [API_CONFIG.ENDPOINTS]. *)
Definition endpoint_target {A} (rq : Endpoint A) : Api.Method * string :=
  match rq with
  | ListSessions => (Api.GET, "/sessions")
  | CreateSession _ => (Api.POST, "/sessions")
  | GetSession i => (Api.GET, "/sessions/" +:+ i)
  | ListMessages i => (Api.GET, "/sessions/" +:+ i +:+ "/messages")
  | DeleteSession i => (Api.DELETE, "/sessions/" +:+ i)
  | ListDocuments i => (Api.GET, "/sessions/" +:+ i +:+ "/documents")
  | DeleteDocument i => (Api.DELETE, "/documents/" +:+ i)
  | AskQuery i _ => (Api.POST, "/sessions/" +:+ i +:+ "/query")
  end.

(** How an awaited call settles for the store: the body of a 2xx response, or
    the [AxiosError] the pipeline rejected with. *)
Inductive Result (A : Type) :=
| Ok (a : A)
| Err (e : Api.AxiosError).
Arguments Ok {A} a.
Arguments Err {A} e.

(** ** Asynchronous functions over React state

    A program over the state [St] finishes with a value, throws, applies a
    state update (a [setState] call, always as an updater of the state at the
    time it is applied), or suspends on a call of [api]. *)
Inductive Prog (St R : Type) : Type :=
| Ret (r : R)
| Throw (e : Api.AxiosError)
| Modify (f : St → St) (k : Prog St R)
| Await {A : Type} (rq : Endpoint A) (k : Result A → Prog St R).
Arguments Ret {St R} r.
Arguments Throw {St R} e.
Arguments Modify {St R} f k.
Arguments Await {St R A} rq k.

Fixpoint bind {St A B} (p : Prog St A) (f : A → Prog St B) : Prog St B :=
  match p with
  | Ret a => f a
  | Throw e => Throw e
  | Modify g k => Modify g (bind k f)
  | Await rq k => Await rq (λ x, bind (k x) f)
  end.

#[global] Instance prog_ret {St} : MRet (Prog St) := λ A a, Ret a.
#[global] Instance prog_bind {St} : MBind (Prog St) := λ A B f p, bind p f.

(** [try { p } catch (err) { h err }] *)
Fixpoint catch {St A} (p : Prog St A) (h : Api.AxiosError → Prog St A) : Prog St A :=
  match p with
  | Ret a => Ret a
  | Throw e => h e
  | Modify g k => Modify g (catch k h)
  | Await rq k => Await rq (λ x, catch (k x) h)
  end.

(** [try { p } finally { fin }], for a [finally] block that completes. *)
Fixpoint finally {St A} (p : Prog St A) (fin : Prog St unit) : Prog St A :=
  match p with
  | Ret a => fin ;; Ret a
  | Throw e => fin ;; Throw e
  | Modify g k => Modify g (finally k fin)
  | Await rq k => Await rq (λ x, finally (k x) fin)
  end.

(** [await api.get(...)] and the like: the body on success, the rejection
    thrown otherwise. *)
Definition await {St A} (rq : Endpoint A) : Prog St A :=
  Await rq (λ r, match r with Ok a => Ret a | Err e => Throw e end).

Definition modify {St} (f : St → St) : Prog St unit := Modify f (Ret tt).

(** Which of the two answers a [Promise.all] waits for comes first. *)
Inductive Arrival := InOrder | Reversed.

(** [await Promise.all([api.get(...), api.get(...)])]: both calls are issued;
    the two bodies when both succeed, and the rejection that comes first
    thrown otherwise. *)
Definition awaitAll {St A B} (arrival : Arrival) (rq1 : Endpoint A) (rq2 : Endpoint B)
    : Prog St (A * B) :=
  Await rq1 (λ r1,
  Await rq2 (λ r2,
    match r1, r2 with
    | Ok a, Ok b => Ret (a, b)
    | Err e, Ok _ => Throw e
    | Ok _, Err e => Throw e
    | Err e1, Err e2 =>
        match arrival with
        | InOrder => Throw e1
        | Reversed => Throw e2
        end
    end)).

(** A program of a hook run inside a component that holds the hook's state as
    the part [get] of its own. *)
Fixpoint lift {St T R} (get : T → St) (set : St → T → T) (p : Prog St R) : Prog T R :=
  match p with
  | Ret r => Ret r
  | Throw e => Throw e
  | Modify f k => Modify (λ t, set (f (get t)) t) (lift get set k)
  | Await rq k => Await rq (λ x, lift get set (k x))
  end.

(** ** Running a program

    The network is an oracle: it settles the [i]-th call of the run.  A run
    records, for every call, the request and the state at the moment it was
    issued. *)
Definition Oracle := nat → ∀ A, Endpoint A → Result A.

Record Issued (St : Type) := mkIssued {
  request : { A : Type & Endpoint A };
  snapshot : St;
}.
Arguments mkIssued {St} request snapshot.
Arguments request {St} i.
Arguments snapshot {St} i.

Definition issue {St A} (rq : Endpoint A) (s : St) : Issued St :=
  mkIssued (existT A rq) s.

Inductive Completion (R : Type) :=
| Returned (r : R)
| Threw (e : Api.AxiosError).
Arguments Returned {R} r.
Arguments Threw {R} e.

Record Run (St R : Type) := mkRun {
  final : St;
  completion : Completion R;
  issued : list (Issued St);
}.
Arguments mkRun {St R} final completion issued.
Arguments final {St R} r.
Arguments completion {St R} r.
Arguments issued {St R} r.

Fixpoint exec {St R} (p : Prog St R) (net : Oracle) (i : nat)
    (log : list (Issued St)) (s : St) : Run St R :=
  match p with
  | Ret r => mkRun s (Returned r) log
  | Throw e => mkRun s (Threw e) log
  | Modify f k => exec k net i log (f s)
  | Await rq k => exec (k (net i _ rq)) net ((S i)) (log ++ [issue rq s]) s
  end.

Definition run {St R} (p : Prog St R) (net : Oracle) (s : St) : Run St R :=
  exec p net 0 [] s.

(** ** The error message of a [catch] block

    [err instanceof Error && "response" in err
       ? err.response?.data?.detail || fallback : fallback]:
    the server's [detail] when the error has a response with a non-empty one,
    the fixed fallback otherwise. *)
Definition errorMessage (fallback : string) (err : Api.AxiosError) : string :=
  match Api.response err with
  | Some r =>
      match Api.detail r with
      | Some d => if String.eqb d "" then fallback else d
      | None => fallback
      end
  | None => fallback
  end.

(** [description || null] *)
Definition orNull (s : option string) : option string :=
  match s with
  | Some d => if String.eqb d "" then None else Some d
  | None => None
  end.

(** ** Texts

    A JavaScript string is a sequence of UTF-16 code units; [length], [trim]
    and a regular expression without the [u] flag work on code units.  The
    strings of this development hold a text as its UTF-8 bytes, and [units]
    reads the code units off them: a character outside the basic plane gives
    its two surrogates, a code unit written on its own as three bytes (a
    lone surrogate) gives itself, and a byte that starts no sequence is read
    as U+FFFD.  [written] holds any sequence of code units as a string. *)
Definition CodeUnit := N.
Definition Text := list CodeUnit.

Definition byte (c : Ascii.ascii) : N := Ascii.N_of_ascii c.
Definition continuation (c : Ascii.ascii) : bool :=
  (128 <=? byte c)%N && (byte c <? 192)%N.
Definition bits (c : Ascii.ascii) : N := (byte c - 128)%N.
Definition REPLACEMENT : CodeUnit := 0xFFFD%N.

(** The code units of the code point [cp] read off four bytes. *)
Definition surrogates (cp : N) : Text :=
  if (cp <? 0x10000)%N then [cp]
  else if (cp <? 0x110000)%N
       then [(0xD800 + (cp - 0x10000) / 1024)%N; (0xDC00 + (cp - 0x10000) mod 1024)%N]
       else [REPLACEMENT].

Fixpoint units (s : string) : Text :=
  match s with
  | EmptyString => []
  | String c0 s1 =>
      let b0 := byte c0 in
      if (b0 <? 128)%N then b0 :: units s1
      else
        match s1 with
        | String c1 s2 =>
            if continuation c1
            then
              if (192 <=? b0)%N && (b0 <? 224)%N
              then ((b0 - 192) * 64 + bits c1)%N :: units s2
              else
                match s2 with
                | String c2 s3 =>
                    if continuation c2
                    then
                      if (224 <=? b0)%N && (b0 <? 240)%N
                      then ((b0 - 224) * 4096 + bits c1 * 64 + bits c2)%N :: units s3
                      else
                        match s3 with
                        | String c3 s4 =>
                            if continuation c3 && (240 <=? b0)%N && (b0 <? 248)%N
                            then
                              surrogates ((b0 - 240) * 262144 + bits c1 * 4096
                                          + bits c2 * 64 + bits c3)%N
                              ++ units s4
                            else REPLACEMENT :: units s1
                        | EmptyString => REPLACEMENT :: units s1
                        end
                    else REPLACEMENT :: units s1
                | EmptyString => REPLACEMENT :: units s1
                end
            else REPLACEMENT :: units s1
        | EmptyString => [REPLACEMENT]
        end
  end.

Definition written1 (u : CodeUnit) : string :=
  if (u <? 128)%N then String (Ascii.ascii_of_N u) ""
  else if (u <? 2048)%N
  then String (Ascii.ascii_of_N (192 + u / 64)) (String (Ascii.ascii_of_N (128 + u mod 64)) "")
  else String (Ascii.ascii_of_N (224 + u / 4096))
         (String (Ascii.ascii_of_N (128 + (u / 64) mod 64))
            (String (Ascii.ascii_of_N (128 + u mod 64)) "")).

Fixpoint written (t : Text) : string :=
  match t with
  | [] => ""
  | u :: t' => written1 u +:+ written t'
  end.

(** [s.length] *)
Module JS.
Definition length (s : string) : nat := List.length (units s).
End JS.

(** ECMAScript's WhiteSpace and LineTerminator, which [trim] strips and [\s]
    matches: TAB, LF, VT, FF, CR, SP, NBSP, U+1680, U+2000 to U+200A, LS, PS,
    U+202F, U+205F, U+3000 and U+FEFF. *)
Definition isWhiteSpace (u : CodeUnit) : bool :=
  ((0x9 <=? u) && (u <=? 0xD) || (u =? 0x20) || (u =? 0xA0) || (u =? 0x1680)
   || (0x2000 <=? u) && (u <=? 0x200A) || (u =? 0x2028) || (u =? 0x2029)
   || (u =? 0x202F) || (u =? 0x205F) || (u =? 0x3000) || (u =? 0xFEFF))%N.

Fixpoint trimStart (t : Text) : Text :=
  match t with
  | u :: t' => if isWhiteSpace u then trimStart t' else t
  | [] => []
  end.

(** [s.trim()], as its code units. *)
Definition trim (s : string) : Text :=
  rev (trimStart (rev (trimStart (units s)))).

(** [!s] for a string: it is empty. *)
Definition isEmpty (t : Text) : bool :=
  match t with
  | [] => true
  | _ :: _ => false
  end.

(** ** [useSession] *)

Module useSession.

Record State := mkState {
  sessions : list Session;
  currentSession : option Session;
  messages : list SessionMessage;
  isLoading : bool;
  error : option string;
}.

(** [useState] initial values. *)
Definition initial : State := mkState [] None [] false None.

Definition setSessions (f : list Session → list Session) : Prog State unit :=
  modify (λ s, mkState (f (sessions s)) (currentSession s) (messages s)
                       (isLoading s) (error s)).
Definition setCurrentSession (c : option Session) : Prog State unit :=
  modify (λ s, mkState (sessions s) c (messages s) (isLoading s) (error s)).
Definition setMessages (f : list SessionMessage → list SessionMessage) : Prog State unit :=
  modify (λ s, mkState (sessions s) (currentSession s) (f (messages s))
                       (isLoading s) (error s)).
Definition setIsLoading (b : bool) : Prog State unit :=
  modify (λ s, mkState (sessions s) (currentSession s) (messages s) b (error s)).
Definition setError (e : option string) : Prog State unit :=
  modify (λ s, mkState (sessions s) (currentSession s) (messages s) (isLoading s) e).

Definition fetchSessions : Prog State unit :=
  setIsLoading true ;;
  setError None ;;
  finally
    (catch
       (response ← await ListSessions;
        setSessions (λ _, default [] response))
       (λ err, setError (Some (errorMessage "Failed to fetch sessions" err))))
    (setIsLoading false).

Definition createSession (title : string) (description : option string)
    : Prog State Session :=
  setIsLoading true ;;
  setError None ;;
  finally
    (catch
       (newSession ← await (CreateSession (mkSessionCreate title (orNull description)));
        setSessions (λ prev, newSession :: prev) ;;
        setCurrentSession (Some newSession) ;;
        setMessages (λ _, []) ;;
        mret newSession)
       (λ err,
          setError (Some (errorMessage "Failed to create session" err)) ;;
          Throw err))
    (setIsLoading false).

(** [arrival] is the order in which the answers to the two reads come. *)
Definition loadSession (arrival : Arrival) (sessionId : string)
    : Prog State (Session * list SessionMessage) :=
  setIsLoading true ;;
  setError None ;;
  finally
    (catch
       ('(sessionData, messagesResponse) ←
          awaitAll arrival (GetSession sessionId) (ListMessages sessionId);
        let messagesData := default [] messagesResponse in
        setCurrentSession (Some sessionData) ;;
        setMessages (λ _, messagesData) ;;
        mret (sessionData, messagesData))
       (λ err,
          setError (Some (errorMessage "Failed to load session" err)) ;;
          Throw err))
    (setIsLoading false).

(** [currentSession?.id === sessionId] *)
Definition isCurrent (current : option Session) (sessionId : string) : bool :=
  match current with
  | Some c => String.eqb (id c) sessionId
  | None => false
  end.

(** [deleteSession] reads [currentSession] from the render it was created
    in: [rendered] is the state of that render. *)
Definition deleteSession (rendered : State) (sessionId : string) : Prog State unit :=
  setIsLoading true ;;
  setError None ;;
  finally
    (catch
       (await (DeleteSession sessionId) ;;
        setSessions (λ prev, filter (λ s, id s ≠ sessionId) prev) ;;
        if isCurrent (currentSession rendered) sessionId
        then setCurrentSession None ;; setMessages (λ _, [])
        else mret tt)
       (λ err, setError (Some (errorMessage "Failed to delete session" err))))
    (setIsLoading false).

Definition addMessage (message : SessionMessage) : Prog State unit :=
  setMessages (λ prev, prev ++ [message]).

End useSession.

(** ** [useDocuments] *)

Module useDocuments.

Record State := mkState {
  documents : list Document;
  isLoading : bool;
  error : option string;
}.

Definition initial : State := mkState [] false None.

Definition setDocuments (f : list Document → list Document) : Prog State unit :=
  modify (λ s, mkState (f (documents s)) (isLoading s) (error s)).
Definition setIsLoading (b : bool) : Prog State unit :=
  modify (λ s, mkState (documents s) b (error s)).
Definition setError (e : option string) : Prog State unit :=
  modify (λ s, mkState (documents s) (isLoading s) e).

Definition fetchDocuments (sessionId : string) : Prog State unit :=
  setIsLoading true ;;
  setError None ;;
  finally
    (catch
       (response ← await (ListDocuments sessionId);
        setDocuments (λ _, default [] response))
       (λ err, setError (Some (errorMessage "Failed to fetch documents" err))))
    (setIsLoading false).

Definition deleteDocument (documentId : string) : Prog State unit :=
  setIsLoading true ;;
  setError None ;;
  finally
    (catch
       (await (DeleteDocument documentId) ;;
        setDocuments (λ prev, filter (λ d, doc_id d ≠ documentId) prev))
       (λ err, setError (Some (errorMessage "Failed to delete document" err))))
    (setIsLoading false).

End useDocuments.

(** ** [useQuery] *)

Module useQuery.

Record State := mkState {
  isLoading : bool;
  error : option string;
}.

Definition initial : State := mkState false None.

Definition setIsLoading (b : bool) : Prog State unit :=
  modify (λ s, mkState b (error s)).
Definition setError (e : option string) : Prog State unit :=
  modify (λ s, mkState (isLoading s) e).

(** [clock] is the time at which the answer arrives. *)
Definition askQuery (clock : Clock) (sessionId : string) (query : string)
    : Prog State SessionMessage :=
  setIsLoading true ;;
  setError None ;;
  finally
    (catch
       (queryResponse ← await (AskQuery sessionId (mkQueryRequest query false true));
        mret (mkMessage ("msg_" +:+ now clock)
                        (qr_session_id queryResponse)
                        assistant
                        (answer queryResponse)
                        (Some (mkMetadata (qr_citations queryResponse)
                                          (qr_routing queryResponse)
                                          (qr_visual_decision queryResponse)
                                          (qr_processing_time_ms queryResponse)))
                        (toISOString clock)))
       (λ err,
          setError (Some (errorMessage "Failed to send query" err)) ;;
          Throw err))
    (setIsLoading false).

End useQuery.

(** ** [SessionPanel]: the create-session dialog *)

Module SessionPanel.

Record State := mkState {
  showModal : bool;
  newSessionTitle : string;
  newSessionDescription : string;
}.

Definition initial : State := mkState false "" "".

Definition setShowModal (b : bool) : Prog State unit :=
  modify (λ s, mkState b (newSessionTitle s) (newSessionDescription s)).
Definition setNewSessionTitle (t : string) : Prog State unit :=
  modify (λ s, mkState (showModal s) t (newSessionDescription s)).
Definition setNewSessionDescription (d : string) : Prog State unit :=
  modify (λ s, mkState (showModal s) (newSessionTitle s) d).

Section Props.

(** The panel lives in a page with state [T]; [onCreateSession] is the
    property the page passes in and [alert] is [window.alert]. *)
Context {T : Type} (get : T → State) (set : State → T → T).
Context (onCreateSession : string → option string → Prog T unit).
Context (alert : string → Prog T unit).

(** The panel does not wait for [onCreateSession]; its own three updates
    touch nothing but the dialog and are placed after it here. *)
Definition handleCreateSession (rendered : State) : Prog T unit :=
  if isEmpty (trim (newSessionTitle rendered))
  then alert "Please enter a session title"
  else
    onCreateSession (newSessionTitle rendered) (Some (newSessionDescription rendered)) ;;
    lift get set
      (setNewSessionTitle "" ;; setNewSessionDescription "" ;; setShowModal false).

End Props.

End SessionPanel.

(** ** [ChatPage] *)

Module ChatPage.

Inductive ToastType := ToastSuccess | ToastError | ToastInfo.

Record Toast := mkToast {
  message : string;
  toast_type : ToastType;
}.

(** The state of the page: its three stores, the dialog of its session panel,
    the toast, the browser location and the alerts shown. *)
Record State := mkState {
  session : useSession.State;
  queryState : useQuery.State;
  docs : useDocuments.State;
  panel : SessionPanel.State;
  toast : option Toast;
  location : string;
  alerts : list string;
}.

Definition initial (location : string) : State :=
  mkState useSession.initial useQuery.initial useDocuments.initial
          SessionPanel.initial None location [].

Definition set_session (x : useSession.State) (s : State) : State :=
  mkState x (queryState s) (docs s) (panel s) (toast s) (location s) (alerts s).
Definition set_queryState (x : useQuery.State) (s : State) : State :=
  mkState (session s) x (docs s) (panel s) (toast s) (location s) (alerts s).
Definition set_docs (x : useDocuments.State) (s : State) : State :=
  mkState (session s) (queryState s) x (panel s) (toast s) (location s) (alerts s).
Definition set_panel (x : SessionPanel.State) (s : State) : State :=
  mkState (session s) (queryState s) (docs s) x (toast s) (location s) (alerts s).

Definition inSession {R} : Prog useSession.State R → Prog State R := lift session set_session.
Definition inQuery {R} : Prog useQuery.State R → Prog State R := lift queryState set_queryState.
Definition inDocuments {R} : Prog useDocuments.State R → Prog State R := lift docs set_docs.

Definition setToast (t : option Toast) : Prog State unit :=
  modify (λ s, mkState (session s) (queryState s) (docs s) (panel s) t (location s) (alerts s)).
Definition navigate (to : string) : Prog State unit :=
  modify (λ s, mkState (session s) (queryState s) (docs s) (panel s) (toast s) to (alerts s)).
Definition alert (text : string) : Prog State unit :=
  modify (λ s, mkState (session s) (queryState s) (docs s) (panel s) (toast s)
                       (location s) (alerts s ++ [text])).

(** [console.error] changes no state. *)
Definition console_error (label : string) : Prog State unit := mret tt.









Definition handleCreateSession (name : string) (description : option string)
    : Prog State unit :=
  catch
    (newSession ← inSession (useSession.createSession name (orNull description));
     navigate ("/chat/" +:+ session_id newSession))
    (λ error, console_error "Failed to create session:").

(** [currentSession?.session_id === sessionId] *)
Definition isSelected (current : option Session) (sessionId : string) : bool :=
  match current with
  | Some c => String.eqb (session_id c) sessionId
  | None => false
  end.

Definition handleDeleteSession (rendered : State) (sessionId : string) : Prog State unit :=
  catch
    (inSession (useSession.deleteSession (session rendered) sessionId) ;;
     inSession useSession.fetchSessions ;;
     setToast (Some (mkToast "Session deleted successfully" ToastSuccess)) ;;
     if isSelected (useSession.currentSession (session rendered)) sessionId
     then navigate "/chat"
     else mret tt)
    (λ error,
       console_error "Failed to delete session:" ;;
       setToast (Some (mkToast "Failed to delete session" ToastError))).

(** [clock] is the time of the click; [clock'] the time the answer arrives. *)
Definition handleAskQuery (rendered : State) (clock clock' : Clock) (query : string)
    : Prog State unit :=
  match useSession.currentSession (session rendered) with
  | None => mret tt
  | Some currentSession =>
      catch
        (let userMessage :=
           mkMessage (now clock) (session_id currentSession) user query None
                     (toISOString clock) in
         inSession (useSession.addMessage userMessage) ;;
         assistantMessage ←
           inQuery (useQuery.askQuery clock' (session_id currentSession) query);
         inSession (useSession.addMessage assistantMessage))
        (λ error, console_error "Failed to ask query:")
  end.

Definition handleDeleteDocument (documentId : string) : Prog State unit :=
  inDocuments (useDocuments.deleteDocument documentId).

(** The panel's create button, with the properties the page passes in. *)
Definition clickCreate (rendered : State) : Prog State unit :=
  SessionPanel.handleCreateSession panel set_panel handleCreateSession alert
    (panel rendered).

End ChatPage.

(** ** Oracles and sample data *)

(** The network that rejects every call with [e]. *)
Definition failing (e : Api.AxiosError) : Oracle := λ _ _ _, Err e.

(** A string that is empty or made of white space only. *)
Definition whitespaceOnly (s : string) : bool := forallb isWhiteSpace (units s).

Definition thesis : Session :=
  mkSession "s1" "s1" "Thesis" None 0 "2024-05-01T10:00:00Z" "2024-05-01T10:00:00Z" true.
Definition notes : Session :=
  mkSession "s2" "s2" "Notes" None 0 "2024-05-02T10:00:00Z" "2024-05-02T10:00:00Z" true.
Definition paper : Document :=
  mkDocument "d1" "s1" "paper.pdf" 1024 "application/pdf" indexed (Some 12) (Some 3)
             None (Some "2024-05-01T10:05:00Z") "2024-05-01T10:04:00Z".
Definition hello : SessionMessage :=
  mkMessage "m1" "s1" user "What is the claim?" None "2024-05-01T10:06:00Z".

(** The server: every call succeeds; a created session is ["s3"], the list
    of sessions after a deletion is what is left, and the answer to a query
    has no citations. *)
Definition server : Oracle := λ _ A rq,
  match rq in Endpoint A return Result A with
  | ListSessions => Ok (Some [notes])
  | CreateSession body =>
      Ok (mkSession "s3" "s3" (create_name body) (create_description body) 0
                    "2024-05-03T10:00:00Z" "2024-05-03T10:00:00Z" true)
  | GetSession _ => Ok thesis
  | ListMessages _ => Ok (Some [hello])
  | DeleteSession _ => Ok tt
  | ListDocuments _ => Ok (Some [paper])
  | DeleteDocument _ => Ok tt
  | AskQuery sessionId body =>
      Ok (mkQueryResponse true (query body) "No documents yet." [] None None 40 sessionId)
  end.

(** The chat page showing [thesis], with one message and one document. *)
Definition thesisPage : ChatPage.State :=
  ChatPage.mkState
    (useSession.mkState [thesis; notes] (Some thesis) [hello] false None)
    useQuery.initial
    (useDocuments.mkState [paper] false None)
    SessionPanel.initial
    None "/chat/s1" [].

(** The same page with a title typed into the create dialog. *)
Definition withTitle (title : string) : ChatPage.State :=
  ChatPage.set_panel (SessionPanel.mkState true title "") thesisPage.

(** A session whose [id] is not its [session_id], selected on a page. *)
Definition archive : Session :=
  mkSession "65f0c2" "s9" "Archive" None 0 "2024-04-01T10:00:00Z" "2024-04-01T10:00:00Z" true.
Definition archivePage : ChatPage.State :=
  ChatPage.mkState
    (useSession.mkState [archive] (Some archive) [] false None)
    useQuery.initial useDocuments.initial SessionPanel.initial None "/chat/s9" [].

Definition noon : Clock := mkClock "1714557600000" "2024-05-01T10:00:00.000Z".

Definition serverDown : Api.AxiosError :=
  Api.mkError (Api.mkConfig "/sessions" Api.GET None None false) None.
Definition forbidden : Api.AxiosError :=
  Api.mkError (Api.mkConfig "/sessions/s1" Api.DELETE None None false)
              (Some (Api.mkResponse 403 (Some "Not your session") None "")).

End Chat.

(** * More of the pipeline: counters over runs *)

Module ApiMore.
Import Api.

(** An answer of the network for call [tid]. *)
Definition answers_to (tid : nat) (ev : Event) : bool :=
  match ev with
  | Deliver t _ => Nat.eqb t tid
  | _ => false
  end.

(** The number of answers for call [tid] among the events. *)
Definition answers (tid : nat) (evs : list Event) : nat :=
  length (List.filter (answers_to tid) evs).

(** An answer with status 401. *)
Definition is_unauthorized (ev : Event) : bool :=
  match ev with
  | Deliver _ (Replied r) => Nat.eqb (status r) 401
  | _ => false
  end.

Definition is_call (ev : Event) : bool :=
  match ev with
  | Call _ => true
  | _ => false
  end.

(** The number of calls the application makes among the events. *)
Definition calls (evs : list Event) : nat := length (List.filter is_call evs).

(** The token in the store when only the application writes it. *)
Definition stored (token : option string) (evs : list Event) : option string :=
  fold_left (λ tok ev, match ev with StoreToken t => t | _ => tok end) evs token.

(** The answers a pending call can still take before it is settled. *)
Definition potential (t : Task) : nat :=
  match t with
  | InFlight _ _ _ => S (remaining t)
  | Settled _ => 0
  end.

(** [isRefreshing] is up only while a call waits for a refresh, and the
    request in flight for a call that waits is a refresh request. *)
Definition refreshing_inv (st : State) : Prop :=
  (isRefreshing st = true →
     ∃ tid t, tasks st !! tid = Some t ∧ waiting t = true)
  ∧ (∀ tid n cfg k,
       tasks st !! tid = Some (InFlight n cfg k) → k ≠ [] → url cfg = REFRESH).

(** No refresh is going on. *)
Definition idle (st : State) : Prop :=
  isRefreshing st = false
  ∧ ∀ tid t, tasks st !! tid = Some t → waiting t = false.

End ApiMore.

(** * More of the chat page: the query input *)

Module ChatMore.
Import Chat.

(** ** [QueryInput] *)

Module QueryInput.

Record State := mkState {
  query : string;
}.

Definition setQuery (q : string) : Prog State unit :=
  modify (λ _, mkState q).

Section Props.

(** The input lives in a page with state [T]; [onSubmit] is the property the
    page passes in. *)
Context {T : Type} (get : T → State) (set : State → T → T).
Context (onSubmit : string → Prog T unit).

Definition handleSubmit (rendered : State) : Prog T unit :=
  if isEmpty (trim (query rendered))
  then mret tt
  else
    onSubmit (query rendered) ;;
    lift get set (setQuery "").

End Props.

End QueryInput.

(** ** The chat page with its query input *)

Record QueryPage := mkQueryPage {
  page : ChatPage.State;
  input : QueryInput.State;
}.

Definition set_page (p : ChatPage.State) (s : QueryPage) : QueryPage :=
  mkQueryPage p (input s).
Definition set_input (i : QueryInput.State) (s : QueryPage) : QueryPage :=
  mkQueryPage (page s) i.

(** The Send button: [QueryPanel] passes [handleAskQuery] down as
    [onSubmitQuery]. *)
Definition clickSend (rendered : QueryPage) (clock clock' : Clock) : Prog QueryPage unit :=
  QueryInput.handleSubmit input set_input
    (λ q, lift page set_page (ChatPage.handleAskQuery (page rendered) clock clock' q))
    (input rendered).

(** The sample page with a text typed into the input. *)
Definition typed (text : string) : QueryPage :=
  mkQueryPage thesisPage (QueryInput.mkState text).


(** The network on which both reads of a session fail, each with its own
    error. *)
Definition messagesDown : Api.AxiosError :=
  Api.mkError (Api.mkConfig "/sessions/s1/messages" Api.GET None None false)
              (Some (Api.mkResponse 503 (Some "Messages unavailable") None "")).
Definition readsFail : Oracle := λ i A rq,
  match rq in Endpoint A return Result A with
  | GetSession _ => Err forbidden
  | ListMessages _ => Err messagesDown
  | other => server i _ other
  end.

(** A text of an ideographic space and a no-break space. *)
Definition wideBlank : string := written [0x3000; 0xA0]%N.

End ChatMore.

(** * Asynchronous functions over any set of requests

    The programs of [Chat.Prog] with the requests as a parameter, for the
    parts of the application that call other endpoints. *)

Module Async.

Inductive Proc (E : Type → Type) (St R : Type) : Type :=
| Ret (r : R)
| Throw (e : Api.AxiosError)
| Modify (f : St → St) (k : Proc E St R)
| Await {A : Type} (rq : E A) (k : Chat.Result A → Proc E St R).
Arguments Ret {E St R} r.
Arguments Throw {E St R} e.
Arguments Modify {E St R} f k.
Arguments Await {E St R A} rq k.

Fixpoint bind {E St A B} (p : Proc E St A) (f : A → Proc E St B) : Proc E St B :=
  match p with
  | Ret a => f a
  | Throw e => Throw e
  | Modify g k => Modify g (bind k f)
  | Await rq k => Await rq (λ x, bind (k x) f)
  end.

#[global] Instance proc_ret {E St} : MRet (Proc E St) := λ A a, Ret a.
#[global] Instance proc_bind {E St} : MBind (Proc E St) := λ A B f p, bind p f.

(** [try { p } catch (err) { h err }] *)
Fixpoint catch {E St A} (p : Proc E St A) (h : Api.AxiosError → Proc E St A)
    : Proc E St A :=
  match p with
  | Ret a => Ret a
  | Throw e => h e
  | Modify g k => Modify g (catch k h)
  | Await rq k => Await rq (λ x, catch (k x) h)
  end.

(** [try { p } finally { fin }], for a [finally] block that completes. *)
Fixpoint finally {E St A} (p : Proc E St A) (fin : Proc E St unit) : Proc E St A :=
  match p with
  | Ret a => fin ;; Ret a
  | Throw e => fin ;; Throw e
  | Modify g k => Modify g (finally k fin)
  | Await rq k => Await rq (λ x, finally (k x) fin)
  end.

Definition await {E St A} (rq : E A) : Proc E St A :=
  Await rq (λ r, match r with Chat.Ok a => Ret a | Chat.Err e => Throw e end).

Definition modify {E St} (f : St → St) : Proc E St unit := Modify f (Ret tt).

Fixpoint lift {E St T R} (get : T → St) (set : St → T → T) (p : Proc E St R)
    : Proc E T R :=
  match p with
  | Ret r => Ret r
  | Throw e => Throw e
  | Modify f k => Modify (λ t, set (f (get t)) t) (lift get set k)
  | Await rq k => Await rq (λ x, lift get set (k x))
  end.

(** A program of the stores as a program over a larger set of requests. *)
Fixpoint embed {E St R} (inj : ∀ A, Chat.Endpoint A → E A) (p : Chat.Prog St R)
    : Proc E St R :=
  match p with
  | Chat.Ret r => Ret r
  | Chat.Throw e => Throw e
  | Chat.Modify f k => Modify f (embed inj k)
  | Chat.Await rq k => Await (inj _ rq) (λ x, embed inj (k x))
  end.

Definition Oracle (E : Type → Type) := nat → ∀ A, E A → Chat.Result A.

Record Issued (E : Type → Type) (St : Type) := mkIssued {
  request : { A : Type & E A };
  snapshot : St;
}.
Arguments mkIssued {E St} request snapshot.
Arguments request {E St} i.
Arguments snapshot {E St} i.

Record Run (E : Type → Type) (St R : Type) := mkRun {
  final : St;
  completion : Chat.Completion R;
  issued : list (Issued E St);
}.
Arguments mkRun {E St R} final completion issued.
Arguments final {E St R} r.
Arguments completion {E St R} r.
Arguments issued {E St R} r.

Fixpoint exec {E St R} (p : Proc E St R) (net : Oracle E) (i : nat)
    (log : list (Issued E St)) (s : St) : Run E St R :=
  match p with
  | Ret r => mkRun s (Chat.Returned r) log
  | Throw e => mkRun s (Chat.Threw e) log
  | Modify f k => exec k net i log (f s)
  | Await rq k =>
      exec (k (net i _ rq)) net (S i) (log ++ [mkIssued (existT _ rq) s]) s
  end.

Definition run {E St R} (p : Proc E St R) (net : Oracle E) (s : St) : Run E St R :=
  exec p net 0 [] s.

End Async.

(** * Regular expressions of the form checks *)

Module Regex.

(** A regular expression without flags works on code units. *)
Inductive Regex :=
| Never
| Empty
| Class (p : Chat.CodeUnit → bool)
| Seq (r1 r2 : Regex)
| Alt (r1 r2 : Regex)
| Star (r : Regex).

(** [r+] *)
Definition Plus (r : Regex) : Regex := Seq r (Star r).

Fixpoint nullable (r : Regex) : bool :=
  match r with
  | Never => false
  | Empty => true
  | Class _ => false
  | Seq r1 r2 => nullable r1 && nullable r2
  | Alt r1 r2 => nullable r1 || nullable r2
  | Star _ => true
  end.

(** What is left of [r] after the code unit [c]. *)
Fixpoint deriv (c : Chat.CodeUnit) (r : Regex) : Regex :=
  match r with
  | Never => Never
  | Empty => Never
  | Class p => if p c then Empty else Never
  | Seq r1 r2 =>
      if nullable r1
      then Alt (Seq (deriv c r1) r2) (deriv c r2)
      else Seq (deriv c r1) r2
  | Alt r1 r2 => Alt (deriv c r1) (deriv c r2)
  | Star r0 => Seq (deriv c r0) (Star r0)
  end.

Fixpoint matches (r : Regex) (s : Chat.Text) : bool :=
  match s with
  | [] => nullable r
  | c :: s' => matches (deriv c r) s'
  end.

(** The strings of a regular expression. *)
Inductive Matches : Regex → Chat.Text → Prop :=
| MEmpty : Matches Empty []
| MClass p c : p c = true → Matches (Class p) [c]
| MSeq r1 r2 s1 s2 : Matches r1 s1 → Matches r2 s2 → Matches (Seq r1 r2) (s1 ++ s2)
| MAltL r1 r2 s : Matches r1 s → Matches (Alt r1 r2) s
| MAltR r1 r2 s : Matches r2 s → Matches (Alt r1 r2) s
| MStarNil r : Matches (Star r) []
| MStarApp r s1 s2 : Matches r s1 → Matches (Star r) s2 → Matches (Star r) (s1 ++ s2).

(** [/^r$/.test(s)] *)
Definition testWhole (r : Regex) (s : string) : bool :=
  matches r (Chat.units s).

(** [/r/.test(s)]: some part of [s] matches. *)
Definition anything : Regex := Star (Class (λ _, true)).
Definition test (r : Regex) (s : string) : bool :=
  testWhole (Seq anything (Seq r anything)) s.

(** The characters [@] (U+0040) and [.] (U+002E). *)
Definition AT : Chat.CodeUnit := 0x40%N.
Definition DOT : Chat.CodeUnit := 0x2E%N.
Definition at_sign (c : Chat.CodeUnit) : bool := (c =? AT)%N.
Definition dot (c : Chat.CodeUnit) : bool := (c =? DOT)%N.

(** [[^\s@]], [[A-Z]], [[a-z]] and [[0-9]] *)
Definition notSpaceNorAt (c : Chat.CodeUnit) : bool :=
  negb (Chat.isWhiteSpace c) && negb (at_sign c).
Definition upperCase (c : Chat.CodeUnit) : bool := ((0x41 <=? c) && (c <=? 0x5A))%N.
Definition lowerCase (c : Chat.CodeUnit) : bool := ((0x61 <=? c) && (c <=? 0x7A))%N.
Definition digit (c : Chat.CodeUnit) : bool := ((0x30 <=? c) && (c <=? 0x39))%N.

(** [/^[^\s@]+@[^\s@]+\.[^\s@]+$/] *)
Definition emailPattern : Regex :=
  Seq (Plus (Class notSpaceNorAt))
      (Seq (Class at_sign)
           (Seq (Plus (Class notSpaceNorAt))
                (Seq (Class dot)
                     (Plus (Class notSpaceNorAt))))).

(** Some code unit of [s] is in the class [p]. *)
Definition some (p : Chat.CodeUnit → bool) (s : string) : bool :=
  existsb p (Chat.units s).

End Regex.

(** * Authentication: [AuthContext], [useLogin], [useSignup] and the two forms *)

Module Auth.

Record CurrentUser := mkUser {
  id : string;
  email : string;
}.

(** [UserLoginRequest] and [UserSignupRequest] *)
Record Credentials := mkCredentials {
  cred_email : string;
  cred_password : string;
}.

Record TokenResponse := mkToken {
  access_token : string;
  token_type : string;
  expires_in : nat;
}.

(** [AuthResponse]; the code reads [token] as optional, and [user_email]
    off the body of the refresh answer. *)
Record AuthResponse := mkAuthResponse {
  success : bool;
  message : string;
  token : option TokenResponse;
  refresh_token : option string;
  refresh_token_expires_in : option nat;
  user_id : string;
  user_email : option string;
}.

Inductive Endpoint : Type → Type :=
| Refresh : Endpoint AuthResponse
| Login (body : Credentials) : Endpoint AuthResponse
| Signup (body : Credentials) : Endpoint AuthResponse
| Logout : Endpoint unit.

(** Method and path of each request, from [API_CONFIG.ENDPOINTS.AUTH]. *)
Definition endpoint_target {A} (rq : Endpoint A) : Api.Method * string :=
  match rq with
  | Refresh => (Api.POST, "/auth/refresh")
  | Login _ => (Api.POST, "/auth/login")
  | Signup _ => (Api.POST, "/auth/signup")
  | Logout => (Api.POST, "/auth/logout")
  end.

Abbreviation Proc := (Async.Proc Endpoint).

(** [data.token?.access_token ?? null] *)
Definition accessTokenOf (data : AuthResponse) : option string :=
  match token data with
  | Some t => Some (access_token t)
  | None => None
  end.

(** ** [AuthContext]

    The state of the provider, the credential store of [authService.ts]
    ([accessToken]) and the location of the router, which [navigate]
    writes. *)

Module AuthContext.

Record State := mkState {
  user : option CurrentUser;
  isLoading : bool;
  token : option string;
  accessToken : option string;
  location : string;
}.

(** The provider when it mounts at [location]. *)
Definition initial (location : string) : State := mkState None true None None location.

Definition setUser (u : option CurrentUser) : Proc State unit :=
  Async.modify (λ s, mkState u (isLoading s) (token s) (accessToken s) (location s)).
Definition setIsLoading (b : bool) : Proc State unit :=
  Async.modify (λ s, mkState (user s) b (token s) (accessToken s) (location s)).
Definition setToken (t : option string) : Proc State unit :=
  Async.modify (λ s, mkState (user s) (isLoading s) t (accessToken s) (location s)).
Definition setAccessToken (t : option string) : Proc State unit :=
  Async.modify (λ s, mkState (user s) (isLoading s) (token s) t (location s)).
Definition clearAccessToken : Proc State unit := setAccessToken None.
Definition navigate (to : string) : Proc State unit :=
  Async.modify (λ s, mkState (user s) (isLoading s) (token s) (accessToken s) to).

(** [isAuthenticated: !!user] *)
Definition isAuthenticated (s : State) : bool :=
  match user s with
  | Some _ => true
  | None => false
  end.

(** The effect run when the provider mounts. *)
Definition init : Proc State unit :=
  Async.finally
    (Async.catch
       (data ← Async.await Refresh;
        let token := accessTokenOf data in
        (if Api.truthy token
         then setToken token ;; setAccessToken token
         else mret tt) ;;
        if String.eqb (user_id data) ""
        then mret tt
        else setUser (Some (mkUser (user_id data) (default "" (user_email data)))))
       (λ e,
          if Api.is401 e
          then setUser None ;; setToken None ;; clearAccessToken ;; navigate "/login"
          else mret tt))
    (setIsLoading false).

Definition login (email password : string) : Proc State unit :=
  data ← Async.await (Login (mkCredentials email password));
  let token := accessTokenOf data in
  setUser (Some (mkUser (user_id data) email)) ;;
  setToken token ;;
  setAccessToken token.

Definition signup (email password : string) : Proc State unit :=
  data ← Async.await (Signup (mkCredentials email password));
  let token := accessTokenOf data in
  setUser (Some (mkUser (user_id data) email)) ;;
  setToken token ;;
  setAccessToken token.

Definition logout : Proc State unit :=
  Async.finally
    (Async.await Logout)
    (clearAccessToken ;; setToken None ;; setUser None ;; navigate "/login").

End AuthContext.

(** ** [useLogin] and [useSignup] *)

Module useLogin.

Record State := mkState {
  isLoading : bool;
  error : option string;
}.

Definition initial : State := mkState false None.

Definition setIsLoading (b : bool) : Proc State unit :=
  Async.modify (λ s, mkState b (error s)).
Definition setError (e : option string) : Proc State unit :=
  Async.modify (λ s, mkState (isLoading s) e).

Section Props.

(** The hook lives in an application with state [T]; [login] comes from
    [useAuth]. *)
Context {T : Type} (get : T → State) (set : State → T → T).
Context (login : string → string → Proc T unit).

Definition handleLogin (email password : string) : Proc T bool :=
  Async.lift get set (setIsLoading true ;; setError None) ;;
  Async.finally
    (Async.catch
       (login email password ;; mret true)
       (λ err,
          Async.lift get set (setError (Some (Chat.errorMessage "Login failed" err))) ;;
          mret false))
    (Async.lift get set (setIsLoading false)).

End Props.

End useLogin.

Module useSignup.

Record State := mkState {
  isLoading : bool;
  error : option string;
}.

Definition initial : State := mkState false None.

Definition setIsLoading (b : bool) : Proc State unit :=
  Async.modify (λ s, mkState b (error s)).
Definition setError (e : option string) : Proc State unit :=
  Async.modify (λ s, mkState (isLoading s) e).

Section Props.

Context {T : Type} (get : T → State) (set : State → T → T).
Context (signup : string → string → Proc T unit).

Definition handleSignup (email password : string) : Proc T bool :=
  Async.lift get set (setIsLoading true ;; setError None) ;;
  Async.finally
    (Async.catch
       (signup email password ;; mret true)
       (λ err,
          Async.lift get set (setError (Some (Chat.errorMessage "Signup failed" err))) ;;
          mret false))
    (Async.lift get set (setIsLoading false)).

End Props.

End useSignup.

(** ** [LoginPage] *)

Module LoginPage.

Record State := mkState {
  email : string;
  password : string;
  validationErrors : gmap string string;
}.

Definition setValidationErrors (errors : gmap string string) : Proc State unit :=
  Async.modify (λ s, mkState (email s) (password s) errors).

Definition validateForm (rendered : State) : gmap string string :=
  let errors : gmap string string := ∅ in
  let errors :=
    if String.eqb (email rendered) ""
    then <["email" := "Email is required"]> errors
    else if negb (Regex.testWhole Regex.emailPattern (email rendered))
    then <["email" := "Invalid email format"]> errors
    else errors in
  let errors :=
    if String.eqb (password rendered) ""
    then <["password" := "Password is required"]> errors
    else if Nat.ltb (Chat.JS.length (password rendered)) 8
    then <["password" := "Password must be at least 8 characters"]> errors
    else errors in
  errors.

Section Props.

Context {T : Type} (get : T → State) (set : State → T → T).
Context (handleLogin : string → string → Proc T bool).
Context (navigate : string → Proc T unit).

(** [Object.keys(errors).length > 0] is [errors] not being empty. *)
Definition handleSubmit (rendered : State) : Proc T unit :=
  Async.lift get set (setValidationErrors ∅) ;;
  let errors := validateForm rendered in
  if bool_decide (errors = ∅)
  then
    success ← handleLogin (email rendered) (password rendered);
    if success : bool then navigate "/chat" else mret tt
  else Async.lift get set (setValidationErrors errors).

End Props.

End LoginPage.

(** ** [SignupPage] *)

Module SignupPage.

Record State := mkState {
  email : string;
  password : string;
  confirmPassword : string;
  validationErrors : gmap string string;
}.

Definition setValidationErrors (errors : gmap string string) : Proc State unit :=
  Async.modify (λ s, mkState (email s) (password s) (confirmPassword s) errors).

Definition validateForm (rendered : State) : gmap string string :=
  let errors : gmap string string := ∅ in
  let errors :=
    if String.eqb (email rendered) ""
    then <["email" := "Email is required"]> errors
    else if negb (Regex.testWhole Regex.emailPattern (email rendered))
    then <["email" := "Invalid email format"]> errors
    else errors in
  let errors :=
    if String.eqb (password rendered) ""
    then <["password" := "Password is required"]> errors
    else if Nat.ltb (Chat.JS.length (password rendered)) 8
    then <["password" := "Password must be at least 8 characters"]> errors
    else if negb (Regex.test (Regex.Class Regex.upperCase) (password rendered))
    then <["password" := "Password must contain uppercase letter"]> errors
    else if negb (Regex.test (Regex.Class Regex.lowerCase) (password rendered))
    then <["password" := "Password must contain lowercase letter"]> errors
    else if negb (Regex.test (Regex.Class Regex.digit) (password rendered))
    then <["password" := "Password must contain a digit"]> errors
    else errors in
  let errors :=
    if String.eqb (confirmPassword rendered) ""
    then <["confirmPassword" := "Please confirm your password"]> errors
    else if negb (String.eqb (password rendered) (confirmPassword rendered))
    then <["confirmPassword" := "Passwords do not match"]> errors
    else errors in
  errors.

Section Props.

Context {T : Type} (get : T → State) (set : State → T → T).
Context (handleSignup : string → string → Proc T bool).
Context (navigate : string → Proc T unit).

Definition handleSubmit (rendered : State) : Proc T unit :=
  Async.lift get set (setValidationErrors ∅) ;;
  let errors := validateForm rendered in
  if bool_decide (errors = ∅)
  then
    success ← handleSignup (email rendered) (password rendered);
    if success : bool then navigate "/chat" else mret tt
  else Async.lift get set (setValidationErrors errors).

End Props.

End SignupPage.

(** ** The pages wired to the provider *)

Record App := mkApp {
  auth : AuthContext.State;
  loginHook : useLogin.State;
  signupHook : useSignup.State;
  loginForm : LoginPage.State;
  signupForm : SignupPage.State;
}.

Definition set_auth (x : AuthContext.State) (a : App) : App :=
  mkApp x (loginHook a) (signupHook a) (loginForm a) (signupForm a).
Definition set_loginHook (x : useLogin.State) (a : App) : App :=
  mkApp (auth a) x (signupHook a) (loginForm a) (signupForm a).
Definition set_signupHook (x : useSignup.State) (a : App) : App :=
  mkApp (auth a) (loginHook a) x (loginForm a) (signupForm a).
Definition set_loginForm (x : LoginPage.State) (a : App) : App :=
  mkApp (auth a) (loginHook a) (signupHook a) x (signupForm a).
Definition set_signupForm (x : SignupPage.State) (a : App) : App :=
  mkApp (auth a) (loginHook a) (signupHook a) (loginForm a) x.

Definition inAuth {R} : Proc AuthContext.State R → Proc App R :=
  Async.lift auth set_auth.

Definition handleLogin (email password : string) : Proc App bool :=
  useLogin.handleLogin loginHook set_loginHook
    (λ e p, inAuth (AuthContext.login e p)) email password.

Definition handleSignup (email password : string) : Proc App bool :=
  useSignup.handleSignup signupHook set_signupHook
    (λ e p, inAuth (AuthContext.signup e p)) email password.

(** Submitting the login form and the signup form. *)
Definition submitLogin (rendered : App) : Proc App unit :=
  LoginPage.handleSubmit loginForm set_loginForm handleLogin
    (λ to, inAuth (AuthContext.navigate to)) (loginForm rendered).

Definition submitSignup (rendered : App) : Proc App unit :=
  SignupPage.handleSubmit signupForm set_signupForm handleSignup
    (λ to, inAuth (AuthContext.navigate to)) (signupForm rendered).

(** ** Sample data *)

Definition welcome : AuthResponse :=
  mkAuthResponse true "ok" (Some (mkToken "tok-1" "bearer" 900)) None None "u1"
                 (Some "a@b.com").

Definition tokenless : AuthResponse :=
  mkAuthResponse true "ok" None None None "u1" None.

(** The server that accepts everything. *)
Definition accepting : Async.Oracle Endpoint := λ _ A rq,
  match rq in Endpoint A return Chat.Result A with
  | Refresh => Chat.Ok welcome
  | Login _ => Chat.Ok welcome
  | Signup _ => Chat.Ok welcome
  | Logout => Chat.Ok tt
  end.

(** The network that rejects every call with [e]. *)
Definition failing (e : Api.AxiosError) : Async.Oracle Endpoint := λ _ _ _, Chat.Err e.

Definition badCredentials : Api.AxiosError :=
  Api.mkError (Api.mkConfig "/auth/login" Api.POST None None false)
              (Some (Api.mkResponse 400 (Some "Invalid email or password") None "")).


Definition offline : Api.AxiosError :=
  Api.mkError (Api.mkConfig "/auth/logout" Api.POST None None false) None.

(** The application on the login page, with the form filled in. *)
Definition filled (email password : string) : App :=
  mkApp (AuthContext.mkState None false None None "/login")
        useLogin.initial useSignup.initial
        (LoginPage.mkState email password ∅)
        (SignupPage.mkState email password password ∅).

(** A signed-in provider. *)
Definition signedIn : AuthContext.State :=
  AuthContext.mkState (Some (mkUser "u1" "a@b.com")) false (Some "tok-1") (Some "tok-1")
                      "/chat".

End Auth.

(** * Uploading and retrying documents: [useDocument], [useRetryDocument] and
      the two handlers of [ChatPage] *)

Module Documents.

(** What the client passes along of a [File]. *)
Record File := mkFile {
  f_name : string;
  f_size : nat;
  f_type : string;
}.

(** The [FormData] of an upload: the fields [file] and [session_id]. *)
Record FormData := mkFormData {
  file : File;
  form_session_id : string;
}.

(** The body of the answer to a retry: an object that holds the document as
    [document], or the document itself. *)
Inductive RetryBody :=
| Wrapped (document : Chat.Document)
| Bare (body : Chat.Document).

(** The requests of the stores, the upload (its answer is read at
    [response.data.data]) and the retry. *)
Inductive Endpoint : Type → Type :=
| Store {A : Type} (rq : Chat.Endpoint A) : Endpoint A
| Upload (sessionId : string) (formData : FormData) : Endpoint Chat.Document
| Retry (documentId : string) : Endpoint RetryBody.

Definition endpoint_target {A} (rq : Endpoint A) : Api.Method * string :=
  match rq with
  | Store rq => Chat.endpoint_target rq
  | Upload i _ => (Api.POST, "/sessions/" +:+ i +:+ "/upload")
  | Retry i => (Api.POST, "/documents/" +:+ i +:+ "/retry")
  end.

Abbreviation Proc := (Async.Proc Endpoint).

(** ** [useDocument] *)

Module useDocument.

Record State := mkState {
  isLoading : bool;
  error : option string;
}.

Definition initial : State := mkState false None.

Definition setIsLoading (b : bool) : Proc State unit :=
  Async.modify (λ s, mkState b (error s)).
Definition setError (e : option string) : Proc State unit :=
  Async.modify (λ s, mkState (isLoading s) e).

Definition uploadDocument (file : File) (sessionId : string) : Proc State Chat.Document :=
  setIsLoading true ;;
  setError None ;;
  Async.finally
    (Async.catch
       (let formData := mkFormData file sessionId in
        Async.await (Upload sessionId formData))
       (λ err,
          setError (Some (Chat.errorMessage "Failed to upload document" err)) ;;
          Async.Throw err))
    (setIsLoading false).

End useDocument.

(** ** [useRetryDocument] *)

Module useRetryDocument.

(** [response.data.document || response.data] *)
Definition retryDocument {St} (documentId : string) : Proc St Chat.Document :=
  response ← Async.await (Retry documentId);
  mret (match response with
        | Wrapped document => document
        | Bare body => body
        end).

End useRetryDocument.

(** ** [DocumentUpload]: the file picker and its upload button *)

Module DocumentUpload.

Record State := mkState {
  selectedFile : option File;
}.

Definition setSelectedFile (f : option File) : Proc State unit :=
  Async.modify (λ _, mkState f).

Section Props.

(** The picker lives in a page with state [T]; [onUpload] is the property
    the page passes in.  Emptying the file input of the browser changes no
    state. *)
Context {T : Type} (get : T → State) (set : State → T → T).
Context (onUpload : File → Proc T unit).

Definition handleUpload (rendered : State) : Proc T unit :=
  match selectedFile rendered with
  | None => mret tt
  | Some file =>
      onUpload file ;;
      Async.lift get set (setSelectedFile None)
  end.

End Props.

End DocumentUpload.

(** ** [ChatPage] with its upload hook and the picker *)

Record Page := mkPage {
  chat : Chat.ChatPage.State;
  uploader : useDocument.State;
  picker : DocumentUpload.State;
}.

Definition set_chat (x : Chat.ChatPage.State) (p : Page) : Page :=
  mkPage x (uploader p) (picker p).
Definition set_uploader (x : useDocument.State) (p : Page) : Page :=
  mkPage (chat p) x (picker p).
Definition set_picker (x : DocumentUpload.State) (p : Page) : Page :=
  mkPage (chat p) (uploader p) x.

(** A handler of the stores run in the page. *)
Definition inChat {R} (p : Chat.Prog Chat.ChatPage.State R) : Proc Page R :=
  Async.lift chat set_chat (Async.embed (@Store) p).

Definition fetchDocuments (sessionId : string) : Proc Page unit :=
  inChat (Chat.ChatPage.inDocuments (Chat.useDocuments.fetchDocuments sessionId)).

Definition handleRetryDocument (rendered : Page) (documentId : string) : Proc Page unit :=
  match Chat.useSession.currentSession (Chat.ChatPage.session (chat rendered)) with
  | None => mret tt
  | Some currentSession =>
      Async.catch
        (useRetryDocument.retryDocument documentId ;;
         inChat (Chat.ChatPage.setToast
                   (Some (Chat.ChatPage.mkToast "Retry started for document"
                                                Chat.ChatPage.ToastInfo))) ;;
         fetchDocuments (Chat.session_id currentSession))
        (λ error,
           inChat (Chat.ChatPage.setToast
                     (Some (Chat.ChatPage.mkToast "Failed to retry document"
                                                  Chat.ChatPage.ToastError))))
  end.

Definition handleUploadDocument (rendered : Page) (file : File) : Proc Page unit :=
  match Chat.useSession.currentSession (Chat.ChatPage.session (chat rendered)) with
  | None => mret tt
  | Some currentSession =>
      Async.catch
        (Async.lift uploader set_uploader
           (useDocument.uploadDocument file (Chat.session_id currentSession)) ;;
         fetchDocuments (Chat.session_id currentSession))
        (λ error, inChat (Chat.ChatPage.console_error "Failed to upload document:"))
  end.

(** The upload button: [DocumentPanel] passes [handleUploadDocument] down as
    [onUpload]. *)
Definition clickUpload (rendered : Page) : Proc Page unit :=
  DocumentUpload.handleUpload picker set_picker (handleUploadDocument rendered)
    (picker rendered).

(** ** Sample data *)

Definition report : File := mkFile "report.pdf" 2048 "application/pdf".

Definition stored : Chat.Document :=
  Chat.mkDocument "d2" "s1" "report.pdf" 2048 "application/pdf" Chat.uploaded None None
                  None None "2024-05-01T10:07:00Z".

(** The sample server, which also takes uploads and retries. *)
Definition server : Async.Oracle Endpoint := λ i A rq,
  match rq in Endpoint A return Chat.Result A with
  | Store rq => Chat.server i _ rq
  | Upload _ _ => Chat.Ok stored
  | Retry _ => Chat.Ok (Wrapped stored)
  end.

(** The network on which uploads and retries fail with [e]. *)
Definition rejecting (e : Api.AxiosError) : Async.Oracle Endpoint := λ i A rq,
  match rq in Endpoint A return Chat.Result A with
  | Store rq => Chat.server i _ rq
  | Upload _ _ => Chat.Err e
  | Retry _ => Chat.Err e
  end.

Definition tooLarge : Api.AxiosError :=
  Api.mkError (Api.mkConfig "/sessions/s1/upload" Api.POST None None false)
              (Some (Api.mkResponse 413 (Some "File too large") None "")).

(** The sample page, and a page with no session selected. *)
Definition thesisPage : Page :=
  mkPage Chat.thesisPage useDocument.initial (DocumentUpload.mkState (Some report)).
Definition emptyPage : Page :=
  mkPage (Chat.ChatPage.initial "/chat") useDocument.initial (DocumentUpload.mkState None).

End Documents.

(** * Properties of the request pipeline *)

Module ApiProofs.
Import Api.

Lemma dispatches_snoc tid w d :
  dispatches tid (w ++ [d]) = dispatches tid w + (if own_dispatch tid d then 1 else 0).
Proof.
  unfold dispatches. rewrite filter_app, length_app. f_equal.
  rewrite filter_cons, filter_nil.
  destruct (own_dispatch tid d); case_decide; simpl; first [reflexivity | congruence].
Qed.

Lemma own_dispatch_other tid tid' depth n cfg :
  tid' ≠ tid → own_dispatch tid' (mkDispatch tid depth n cfg) = false.
Proof.
  intros Hne. unfold own_dispatch; simpl.
  destruct (Nat.eqb_spec tid tid'); [congruence | reflexivity].
Qed.

Lemma own_dispatch_same tid depth n cfg :
  own_dispatch tid (mkDispatch tid depth n cfg) = Nat.eqb depth 0.
Proof. unfold own_dispatch; simpl. by rewrite Nat.eqb_refl. Qed.

Lemma retry_requestInterceptor token cfg :
  _retry (requestInterceptor token cfg) = _retry cfg.
Proof. unfold requestInterceptor. destruct token; [destruct (truthy _)|]; reflexivity. Qed.

Lemma url_requestInterceptor token cfg :
  url (requestInterceptor token cfg) = url cfg.
Proof. unfold requestInterceptor. destruct token; [destruct (truthy _)|]; reflexivity. Qed.

Lemma root_attempts_nil n : root_attempts n [] = n.
Proof. reflexivity. Qed.

Lemma root_attempts_cons n m f k :
  k ≠ [] → root_attempts n (f :: k) = root_attempts m k.
Proof.
  destruct k as [|f0 k]; [congruence|]. intros _. unfold root_attempts.
  rewrite last_cons_cons. destruct (last (f0 :: k)) eqn:E; [done|].
  by apply last_None in E.
Qed.

Lemma root_attempts_irrel n m k : k ≠ [] → root_attempts n k = root_attempts m k.
Proof.
  intros Hk. unfold root_attempts. destruct (last k) eqn:E; [done|].
  by apply last_None in E.
Qed.

Lemma root_attempts_single n f : root_attempts n [f] = attempts f.
Proof. reflexivity. Qed.

Lemma root_attempts_le n k : Forall frame_ok k → n ≤ 2 → root_attempts n k ≤ 2.
Proof.
  intros Hk Hn. unfold root_attempts. destruct (last k) as [f|] eqn:E; [|done].
  apply last_Some_elem_of in E. rewrite Forall_forall in Hk. destruct (Hk f E). lia.
Qed.

(** A dispatch keeps the invariant when the counters of the request agree
    with what is on the wire. *)
Lemma inv_send st tid n cfg k :
  inv st → tid < nextId st →
  Forall frame_ok k → n ≤ 2 → (_retry cfg = false → n ≤ 1) →
  dispatches tid (wire st) + (if Nat.eqb (length k) 0 then 1 else 0) = root_attempts n k →
  inv (send tid n cfg k st).
Proof.
  intros (Hok & Hfresh & Hnone) Hlt Hk Hn Hr Hc.
  unfold inv, send; simpl. split; [|split].
  - intros tid' t. rewrite dispatches_snoc.
    destruct (decide (tid' = tid)) as [->|Hne].
    + rewrite lookup_insert_eq. intros [= <-]. simpl.
      rewrite own_dispatch_same, retry_requestInterceptor. auto.
    + rewrite lookup_insert_ne by done. rewrite own_dispatch_other by done.
      rewrite Nat.add_0_r. apply Hok.
  - intros tid' Hle. rewrite lookup_insert_ne by lia. by apply Hfresh.
  - intros tid'. rewrite dispatches_snoc.
    destruct (decide (tid' = tid)) as [->|Hne].
    + by rewrite lookup_insert_eq.
    + rewrite lookup_insert_ne by done. rewrite own_dispatch_other by done.
      rewrite Nat.add_0_r. apply Hnone.
Qed.

Lemma inv_lt st tid t : inv st → tasks st !! tid = Some t → tid < nextId st.
Proof.
  intros (_ & Hfresh & _) Ht. destruct (decide (tid < nextId st)); [done|].
  rewrite Hfresh in Ht by lia. done.
Qed.

Lemma inv_settle st tid res :
  inv st → tid < nextId st → dispatches tid (wire st) ≤ 2 →
  inv (set_task tid (Settled res) st).
Proof.
  intros (Hok & Hfresh & Hnone) Hlt Hc. unfold inv; simpl. split; [|split].
  - intros tid' t. destruct (decide (tid' = tid)) as [->|Hne].
    + rewrite lookup_insert_eq. by intros [= <-].
    + rewrite lookup_insert_ne by done. apply Hok.
  - intros tid' Hle. rewrite lookup_insert_ne by lia. by apply Hfresh.
  - intros tid'. destruct (decide (tid' = tid)) as [->|Hne].
    + by rewrite lookup_insert_eq.
    + rewrite lookup_insert_ne by done. apply Hnone.
Qed.

(** A rejection settles the call and touches neither the wire nor the
    identifiers. *)
Lemma reject_shape tid e k st :
  ∃ e', tasks (reject tid e k st) = <[tid := Settled (Rejected e')]> (tasks st)
        ∧ wire (reject tid e k st) = wire st
        ∧ nextId (reject tid e k st) = nextId st.
Proof.
  revert e st. induction k as [|f k IH]; intros e st; simpl.
  - by exists e.
  - destruct (is401 e).
    + destruct (IH e (navigate LOGIN_PAGE (clearAccessToken (set_isRefreshing false st))))
        as (e' & H1 & H2 & H3).
      exists e'. by rewrite H1, H2, H3.
    + destruct (IH (error f) (set_isRefreshing false st)) as (e' & H1 & H2 & H3).
      exists e'. by rewrite H1, H2, H3.
Qed.

Lemma inv_same st st' :
  tasks st' = tasks st → wire st' = wire st → nextId st' = nextId st →
  inv st → inv st'.
Proof. unfold inv. by intros -> -> ->. Qed.

Lemma inv_reject st tid e k :
  inv st → tid < nextId st → dispatches tid (wire st) ≤ 2 →
  inv (reject tid e k st).
Proof.
  intros Hinv Hlt Hc. destruct (reject_shape tid e k st) as (e' & H1 & H2 & H3).
  apply (inv_same (set_task tid (Settled (Rejected e')) st)); try done.
  by apply inv_settle.
Qed.

Lemma inv_deliver st tid o : inv st → inv (deliver tid o st).
Proof.
  intros Hinv. unfold deliver.
  destruct (tasks st !! tid) as [[n cfg k|res]|] eqn:Ht; try done.
  pose proof (inv_lt _ _ _ Hinv Ht) as Hlt.
  destruct Hinv as (Hok & Hfresh & Hnone).
  destruct (Hok _ _ Ht) as (Hk & Hn & Hr & Hc).
  assert (Hinv : inv st) by done.
  assert (Hle : dispatches tid (wire st) ≤ 2).
  { rewrite Hc. by apply root_attempts_le. }
  assert (Hres : ∀ r, inv (resolve tid r k st)).
  { intros r. unfold resolve. destruct k as [|f k'].
    - by apply inv_settle.
    - apply Forall_cons in Hk as [[Hf1 Hf2] Hk'].
      apply inv_send.
      + eapply inv_same; [..|exact Hinv]; by destruct (truthy _).
      + by destruct (truthy _).
      + done.
      + lia.
      + rewrite Hf2. done.
      + replace (wire _) with (wire st) by (by destruct (truthy _)).
        rewrite Hc. destruct k' as [|f' k'']; simpl.
        * rewrite root_attempts_single, root_attempts_nil. lia.
        * rewrite Nat.add_0_r. by apply root_attempts_cons. }
  assert (Herr : ∀ e, config e = cfg → inv (responseError tid n e k st)).
  { intros e He. unfold responseError. rewrite He.
    destruct (is401 e && negb (_retry cfg)) eqn:E.
    - apply andb_true_iff in E as [_ E]. apply negb_true_iff in E.
      specialize (Hr E).
      destruct (isRefreshing st).
      + apply inv_send; try done; [lia|].
        rewrite Hc. destruct k as [|f k']; simpl.
        * rewrite !root_attempts_nil. lia.
        * rewrite Nat.add_0_r. by apply root_attempts_irrel.
      + apply inv_send; try done.
        * apply Forall_cons. split; [|done]. split; done.
        * lia.
        * simpl. rewrite Nat.add_0_r, Hc. destruct k as [|f k'].
          -- by rewrite root_attempts_nil, root_attempts_single.
          -- symmetry. by apply root_attempts_cons.
    - by apply inv_reject. }
  destruct o as [r|].
  - destruct (ok2xx r); [apply Hres | by apply Herr].
  - by apply Herr.
Qed.

Lemma inv_call st cfg : inv st → inv (call cfg st).
Proof.
  intros (Hok & Hfresh & Hnone). unfold call. apply inv_send; simpl; try done; try lia.
  - split; [|split]; simpl; try done. intros tid Hle. apply Hfresh. lia.
  - rewrite Hnone by (by apply Hfresh). done.
Qed.

Lemma inv_step st ev : inv st → inv (step st ev).
Proof.
  destruct ev; simpl; [apply inv_call | apply inv_deliver | by apply inv_same].
Qed.

Lemma inv_init token : inv (init token).
Proof. unfold inv, init; simpl. split; [|split]; intros; by rewrite ?lookup_empty in *. Qed.

Lemma inv_run evs st : inv st → inv (run evs st).
Proof.
  revert st. induction evs as [|ev evs IH]; intros st Hinv; simpl; [done|].
  apply IH. by apply inv_step.
Qed.

Lemma inv_dispatches st tid : inv st → dispatches tid (wire st) ≤ 2.
Proof.
  intros (Hok & Hfresh & Hnone).
  destruct (tasks st !! tid) as [[n cfg k|res]|] eqn:Ht.
  - destruct (Hok _ _ Ht) as (Hk & Hn & Hr & Hc). rewrite Hc. by apply root_attempts_le.
  - apply (Hok _ _ Ht).
  - rewrite Hnone by done. lia.
Qed.


(** *** Unfolding one delivery *)

Lemma deliver_eq st tid n cfg k o :
  tasks st !! tid = Some (InFlight n cfg k) →
  deliver tid o st =
    match o with
    | Replied r =>
        if ok2xx r then resolve tid r k st
        else responseError tid n (mkError cfg (Some r)) k st
    | NoReply => responseError tid n (mkError cfg None) k st
    end.
Proof. intros H. unfold deliver. by rewrite H. Qed.

Lemma tasks_send st tid n cfg k :
  tasks (send tid n cfg k st) !! tid
  = Some (InFlight n (requestInterceptor (getAccessToken st) cfg) k).
Proof. unfold send; simpl. apply lookup_insert_eq. Qed.

Lemma status_401 r :
  status r = 401 → ok2xx r = false ∧ ∀ c, is401 (mkError c (Some r)) = true.
Proof. intros H. unfold ok2xx, is401; simpl. rewrite H. done. Qed.

Lemma transient_not_ok o :
  transient o = true →
  match o with
  | Replied r => ok2xx r = false ∧ ∀ c, is401 (mkError c (Some r)) = false
  | NoReply => True
  end.
Proof.
  destruct o as [r|]; [|done]. simpl. intros [H1 H2]%andb_true_iff.
  apply negb_true_iff in H1, H2. split; [done|]. intros c. by unfold is401; simpl.
Qed.

(** The first 401 of a request with no refresh pending: the handler marks the
    request, raises [isRefreshing] and dispatches the refresh request. *)
Lemma first_401 st tid n cfg r :
  tasks st !! tid = Some (InFlight n cfg []) → _retry cfg = false →
  isRefreshing st = false → status r = 401 →
  deliver tid (Replied r) st
  = send tid 1 refreshRequest
      [mkFrame (with_retry true cfg) n (mkError (with_retry true cfg) (Some r))]
      (set_isRefreshing true st).
Proof.
  intros Ht Hr Hf Hs. rewrite (deliver_eq _ _ _ _ _ _ Ht).
  destruct (status_401 r Hs) as [-> H401].
  unfold responseError. rewrite H401; simpl. rewrite Hr, Hf; simpl. done.
Qed.

(** A 401 while [isRefreshing] is up, for a request not yet marked (the
    request of another call, or the refresh request itself): the handler marks
    the request and dispatches it again at once. *)
Lemma replayed_while_refreshing st tid n cfg k r :
  tasks st !! tid = Some (InFlight n cfg k) → _retry cfg = false →
  isRefreshing st = true → status r = 401 →
  deliver tid (Replied r) st = send tid (S n) (with_retry true cfg) k st.
Proof.
  intros Ht Hr Hf Hs. rewrite (deliver_eq _ _ _ _ _ _ Ht).
  destruct (status_401 r Hs) as [-> H401].
  unfold responseError. rewrite H401; simpl. rewrite Hr, Hf; simpl. done.
Qed.

(** C3 (amended): when the refresh call is rejected with 401, that is, when
    the refresh request and the one replay the interceptor gives it are both
    answered 401, the pipeline clears the stored credential, assigns
    ["/login"] to the browser location, lowers [isRefreshing], and rejects the
    caller with the 401 error of the refresh call ([refreshError], whose
    configuration is the refresh request), not with the error of the original
    request. *)
Theorem refresh_401_signs_out :
  ∀ st tid n cfg r0 r1 r2,
    tasks st !! tid = Some (InFlight n cfg []) → _retry cfg = false →
    isRefreshing st = false →
    status r0 = 401 → status r1 = 401 → status r2 = 401 →
    let st' := run [Deliver tid (Replied r0); Deliver tid (Replied r1);
                    Deliver tid (Replied r2)] st in
    let sent := requestInterceptor (getAccessToken st)
                  (with_retry true
                     (requestInterceptor (getAccessToken st) refreshRequest)) in
    getAccessToken st' = None
    ∧ navigations st' = navigations st ++ [LOGIN_PAGE]
    ∧ isRefreshing st' = false
    ∧ outcome tid st' = Some (Rejected (mkError sent (Some r2)))
    ∧ url sent = REFRESH
    ∧ wire st'
      = wire st
        ++ [mkDispatch tid 1 1 (requestInterceptor (getAccessToken st) refreshRequest);
            mkDispatch tid 1 2 sent].
Proof.
  intros st tid n cfg r0 r1 r2 Ht Hr Hf H0 H1 H2. simpl.
  rewrite (first_401 _ _ _ _ _ Ht Hr Hf H0).
  rewrite (replayed_while_refreshing _ _ _ _ _ _ (tasks_send _ _ _ _ _)); try done.
  2:{ by rewrite retry_requestInterceptor. }
  rewrite (deliver_eq _ _ _ _ _ _ (tasks_send _ _ _ _ _)).
  destruct (status_401 r2 H2) as [-> H401].
  unfold responseError. simpl. rewrite H401, retry_requestInterceptor; simpl.
  unfold outcome; simpl. rewrite lookup_insert_eq.
  repeat split; try reflexivity.
  - rewrite url_requestInterceptor; simpl. by rewrite url_requestInterceptor.
  - by rewrite <- app_assoc.
Qed.

(** The call of [GET /sessions] made with the token ["old"]: its 401, then
    two 401 from the refresh endpoint. *)
Lemma refresh_401_signs_out_witness :
  let st' := run [Deliver 0 (Replied unauthorized); Deliver 0 (Replied refreshDenied);
                  Deliver 0 (Replied refreshDenied)] oneCall in
  getAccessToken st' = None
  ∧ navigations st' = ["/login"]
  ∧ isRefreshing st' = false
  ∧ outcome 0 st'
    = Some (Rejected (mkError (mkConfig REFRESH POST None (Some "Bearer old") true)
                              (Some refreshDenied))).
Proof.
  destruct (refresh_401_signs_out oneCall 0 1
              (mkConfig "/sessions" GET None (Some "Bearer old") false)
              unauthorized refreshDenied refreshDenied
              eq_refl eq_refl eq_refl eq_refl eq_refl eq_refl)
    as (H1 & H2 & H3 & H4 & _ & _).
  repeat split; assumption.
Defined.

(** C3 (as stated): after a terminal rejection the caller of [GET /sessions]
    does not get the 401 of its own request (detail ["Not authenticated"])
    but the error of the refresh call. *)
Lemma terminal_rejection_surfaces_refresh_error :
  let st' := run [Deliver 0 (Replied unauthorized); Deliver 0 (Replied refreshDenied);
                  Deliver 0 (Replied refreshDenied)] oneCall in
  ∃ e, outcome 0 st' = Some (Rejected e)
       ∧ url (config e) = "/auth/refresh"
       ∧ response e = Some refreshDenied
       ∧ url (config e) ≠ url getSessions
       ∧ response e ≠ Some unauthorized.
Proof.
  eexists. split; [vm_compute; reflexivity|]. simpl. repeat split; discriminate.
Qed.

(** C5: when the refresh call fails otherwise than by a 401 (no answer, or an
    answer outside 2xx other than 401), be it at its first dispatch or at the
    replay that follows a first 401, the stored credential and the browser
    location are as before, and the caller is rejected with the error of the
    original request. *)
Theorem transient_refresh_failure_keeps_session :
  ∀ st tid n cfg r0 o,
    tasks st !! tid = Some (InFlight n cfg []) → _retry cfg = false →
    isRefreshing st = false →
    status r0 = 401 → transient o = true →
    let quiet st' :=
      getAccessToken st' = getAccessToken st
      ∧ navigations st' = navigations st
      ∧ isRefreshing st' = false
      ∧ outcome tid st' = Some (Rejected (mkError (with_retry true cfg) (Some r0))) in
    quiet (run [Deliver tid (Replied r0); Deliver tid o] st)
    ∧ ∀ r1, status r1 = 401 →
        quiet (run [Deliver tid (Replied r0); Deliver tid (Replied r1); Deliver tid o] st).
Proof.
  intros st tid n cfg r0 o Ht Hr Hf H0 Ho. simpl.
  rewrite (first_401 _ _ _ _ _ Ht Hr Hf H0).
  pose proof (transient_not_ok o Ho) as Hno.
  split.
  - rewrite (deliver_eq _ _ _ _ _ _ (tasks_send _ _ _ _ _)).
    unfold responseError, outcome.
    destruct o as [r|]; [destruct Hno as [-> Hno]; rewrite Hno|];
      simpl; rewrite ?Hno; simpl; rewrite lookup_insert_eq; done.
  - intros r1 H1.
    rewrite (replayed_while_refreshing _ _ _ _ _ _ (tasks_send _ _ _ _ _)); try done.
    2:{ by rewrite retry_requestInterceptor. }
    rewrite (deliver_eq _ _ _ _ _ _ (tasks_send _ _ _ _ _)).
    unfold responseError, outcome.
    destruct o as [r|]; [destruct Hno as [-> Hno]; rewrite Hno|];
      simpl; rewrite ?Hno; simpl; rewrite lookup_insert_eq; done.
Qed.

(** The call of [GET /sessions] made with the token ["old"]: its 401, then
    a 503 from the refresh endpoint. *)
Lemma transient_refresh_failure_keeps_session_witness :
  let st' := run [Deliver 0 (Replied unauthorized); Deliver 0 (Replied unavailable)] oneCall in
  getAccessToken st' = Some "old"
  ∧ navigations st' = []
  ∧ isRefreshing st' = false
  ∧ outcome 0 st'
    = Some (Rejected (mkError (mkConfig "/sessions" GET None (Some "Bearer old") true)
                              (Some unauthorized))).
Proof.
  destruct (transient_refresh_failure_keeps_session oneCall 0 1
              (mkConfig "/sessions" GET None (Some "Bearer old") false)
              unauthorized (Replied unavailable)
              eq_refl eq_refl eq_refl eq_refl eq_refl)
    as [(H1 & H2 & H3 & H4) _].
  repeat split; assumption.
Defined.


Lemma bearer_of_truthy t cfg :
  t ≠ "" → Authorization (requestInterceptor (Some t) cfg) = Some ("Bearer " +:+ t).
Proof.
  intros Ht. unfold requestInterceptor, truthy.
  destruct (String.eqb_spec t ""); [done|]. reflexivity.
Qed.

Lemma requestInterceptor_falsy token cfg :
  truthy token = false → requestInterceptor token cfg = cfg.
Proof. intros H. unfold requestInterceptor. destruct token; [by rewrite H|done]. Qed.

(** C10: when the refresh endpoint answers 2xx with no (or an empty)
    [token.access_token], the stored credential is unchanged and the original
    request is replayed all the same; the replay carries the bearer header of
    the credential still in the store (and, with an empty store, the header
    the request already had). *)
Theorem refresh_without_token_replays_with_old_credential :
  ∀ st tid n cfg r0 r1,
    tasks st !! tid = Some (InFlight n cfg []) → _retry cfg = false →
    isRefreshing st = false →
    status r0 = 401 → ok2xx r1 = true → truthy (access_token r1) = false →
    let st' := run [Deliver tid (Replied r0); Deliver tid (Replied r1)] st in
    let replay := requestInterceptor (getAccessToken st) (with_retry true cfg) in
    getAccessToken st' = getAccessToken st
    ∧ tasks st' !! tid = Some (InFlight (S n) replay [])
    ∧ last (wire st') = Some (mkDispatch tid 0 (S n) replay)
    ∧ (∀ t, getAccessToken st = Some t → t ≠ "" →
         Authorization replay = Some ("Bearer " +:+ t))
    ∧ (truthy (getAccessToken st) = false →
         Authorization replay = Authorization cfg).
Proof.
  intros st tid n cfg r0 r1 Ht Hr Hf H0 H1 Hnew. simpl.
  rewrite (first_401 _ _ _ _ _ Ht Hr Hf H0).
  rewrite (deliver_eq _ _ _ _ _ _ (tasks_send _ _ _ _ _)).
  rewrite H1. unfold resolve. rewrite Hnew. simpl.
  rewrite lookup_insert_eq, last_snoc.
  repeat split; try reflexivity.
  - intros t -> Hne. by apply bearer_of_truthy.
  - intros Hfalsy. by rewrite requestInterceptor_falsy.
Qed.

(** The call of [GET /sessions] made with the token ["old"]: its 401, then
    a 200 without token from the refresh endpoint. *)
Lemma refresh_without_token_replays_with_old_credential_witness :
  let st' := run [Deliver 0 (Replied unauthorized); Deliver 0 (Replied noToken)] oneCall in
  getAccessToken st' = Some "old"
  ∧ last (wire st')
    = Some (mkDispatch 0 0 2 (mkConfig "/sessions" GET None (Some "Bearer old") true)).
Proof.
  destruct (refresh_without_token_replays_with_old_credential oneCall 0 1
              (mkConfig "/sessions" GET None (Some "Bearer old") false)
              unauthorized noToken
              eq_refl eq_refl eq_refl eq_refl eq_refl eq_refl)
    as (H1 & _ & H3 & _).
  split; assumption.
Defined.

(** *** What one step puts on the wire *)

Lemma step_wire st ev :
  wire (step st ev) = wire st
  ∨ ∃ tid depth n cfg,
      wire (step st ev)
      = wire st ++ [mkDispatch tid depth n
                      (requestInterceptor (getAccessToken (step st ev)) cfg)].
Proof.
  destruct ev as [cfg|tid o|token]; simpl.
  - right. by exists (nextId st), 0, 1, cfg.
  - unfold deliver.
    destruct (tasks st !! tid) as [[n cfg k|res]|] eqn:Ht; [|by left..].
    assert (Hres : ∀ r,
      wire (resolve tid r k st) = wire st
      ∨ ∃ tid' depth n' cfg',
          wire (resolve tid r k st)
          = wire st ++ [mkDispatch tid' depth n'
                          (requestInterceptor (getAccessToken (resolve tid r k st)) cfg')]).
    { intros r. unfold resolve. destruct k as [|f k']; [by left|]. right.
      exists tid, (length k'), (S (attempts f)), (originalRequest f).
      by destruct (truthy (access_token r)). }
    assert (Herr : ∀ e,
      wire (responseError tid n e k st) = wire st
      ∨ ∃ tid' depth n' cfg',
          wire (responseError tid n e k st)
          = wire st ++ [mkDispatch tid' depth n'
                          (requestInterceptor (getAccessToken (responseError tid n e k st)) cfg')]).
    { intros e. unfold responseError.
      destruct (is401 e && negb (_retry (config e))).
      - right. destruct (isRefreshing st).
        + by exists tid, (length k), (S n), (with_retry true (config e)).
        + by exists tid, (S (length k)), 1, refreshRequest.
      - left. by destruct (reject_shape tid e k st) as (e' & _ & -> & _). }
    destruct o as [r|]; [destruct (ok2xx r)|]; auto.
  - by left.
Qed.

(** C4 (amended): every request a step puts on the wire, the refresh request
    included, carries [Authorization: Bearer <token>] for the non-empty token
    that is in the credential store once the step is done; no url is exempt.
    A step puts at most one request on the wire. *)
Theorem bearer_attached_to_every_dispatch :
  ∀ st ev,
    ∃ new,
      wire (step st ev) = wire st ++ new
      ∧ length new ≤ 1
      ∧ ∀ d t,
          d ∈ new → getAccessToken (step st ev) = Some t → t ≠ "" →
          Authorization (d_config d) = Some ("Bearer " +:+ t).
Proof.
  intros st ev.
  destruct (step_wire st ev) as [Hsame|(tid & depth & n & cfg & Hd)].
  - exists []. rewrite app_nil_r. split; [done|]. split; [simpl; lia|].
    intros d t Hin. by apply elem_of_nil in Hin.
  - eexists. split; [exact Hd|]. split; [simpl; lia|].
    intros d t Hin Htok Hne. apply list_elem_of_singleton in Hin as ->. simpl.
    rewrite Htok. by apply bearer_of_truthy.
Qed.

(** The refresh request issued on the first 401 of [GET /sessions], with the
    token ["old"] in the store. *)
Lemma bearer_attached_to_every_dispatch_witness :
  let sent := mkDispatch 0 1 1 (mkConfig REFRESH POST None (Some "Bearer old") false) in
  wire (step oneCall (Deliver 0 (Replied unauthorized))) = wire oneCall ++ [sent]
  ∧ Authorization (d_config sent) = Some "Bearer old".
Proof.
  split; [reflexivity|].
  destruct (bearer_attached_to_every_dispatch oneCall (Deliver 0 (Replied unauthorized)))
    as (new & Hw & _ & Hnew).
  change (wire (step oneCall (Deliver 0 (Replied unauthorized))))
    with (wire oneCall
            ++ [mkDispatch 0 1 1 (mkConfig REFRESH POST None (Some "Bearer old") false)])
    in Hw.
  apply app_inv_head in Hw. subst new.
  apply (Hnew _ "old").
  - apply list_elem_of_singleton. reflexivity.
  - reflexivity.
  - discriminate.
Defined.

(** C4 (as stated): the refresh request is not exempt.  With the token ["old"]
    in the store, the request that [api.post(REFRESH)] puts on the wire
    carries the bearer header, where [refreshRequest] itself has none. *)
Lemma refresh_request_carries_bearer :
  let st := deliver 0 (Replied unauthorized) oneCall in
  ∃ d, last (wire st) = Some d
       ∧ url (d_config d) = "/auth/refresh"
       ∧ Authorization (d_config d) = Some "Bearer old"
       ∧ Authorization (d_config d) ≠ Authorization refreshRequest.
Proof.
  eexists. split; [vm_compute; reflexivity|]. simpl. repeat split; discriminate.
Qed.

(** *** One refresh at a time, and a bound on the dispatches of a call *)

Lemma reject_flag tid e k st :
  isRefreshing (reject tid e k st) = match k with [] => isRefreshing st | _ => false end.
Proof.
  revert e st. induction k as [|f k IH]; intros e st; simpl; [done|].
  destruct (is401 e); rewrite IH; by destruct k.
Qed.

Lemma deliver_cases st tid n cfg k o :
  tasks st !! tid = Some (InFlight n cfg k) →
  delivered st (deliver tid o st) tid n cfg k.
Proof.
  intros Ht. rewrite (deliver_eq _ _ _ _ _ _ Ht).
  assert (Hres : ∀ r, delivered st (resolve tid r k st) tid n cfg k).
  { intros r. unfold resolve. destruct k as [|f k'].
    - by eapply d_settled.
    - destruct (truthy (access_token r));
        (eapply d_resumed;
           [reflexivity | | reflexivity | reflexivity | reflexivity | reflexivity];
         apply retry_requestInterceptor). }
  assert (Herr : ∀ e, config e = cfg → delivered st (responseError tid n e k st) tid n cfg k).
  { intros e He. unfold responseError. rewrite He.
    destruct (is401 e && negb (_retry cfg)) eqn:E.
    - apply andb_true_iff in E as [_ E]. apply negb_true_iff in E.
      destruct (isRefreshing st) eqn:Ef.
      + eapply d_replayed;
          [done | done | | reflexivity | reflexivity | reflexivity | by simpl].
        by rewrite retry_requestInterceptor.
      + eapply d_refreshing;
          [done | done | | reflexivity | reflexivity | reflexivity | by simpl].
        by rewrite retry_requestInterceptor.
    - destruct (reject_shape tid e k st) as (e' & H1 & H2 & _).
      eapply d_settled; try done. apply reject_flag. }
  destruct o as [r|]; [destruct (ok2xx r)|]; auto.
Qed.

Lemma all_dispatches_snoc tid w d :
  all_dispatches tid (w ++ [d])
  = all_dispatches tid w + (if decide (d_task d = tid) then 1 else 0).
Proof.
  unfold all_dispatches. rewrite filter_app, length_app. f_equal.
  rewrite filter_cons, filter_nil. by case_decide.
Qed.

Lemma single_flight_deliver st tid o :
  single_flight st → single_flight (deliver tid o st).
Proof.
  intros (Hlen & Hflag & Huniq).
  destruct (tasks st !! tid) as [[n cfg k|res]|] eqn:Ht;
    [|by unfold deliver; rewrite Ht..].
  pose proof (Hlen _ _ _ _ Ht) as Hk.
  assert (Hothers : ∀ tid' t, tid' ≠ tid → tasks st !! tid' = Some t →
                      waiting t = true → k = []).
  { intros tid' t Hne Ht' Hw. destruct k as [|f k']; [done|].
    destruct Hne. by eapply Huniq. }
  destruct (deliver_cases st tid n cfg k o Ht)
    as [res Hts _ Hf | cfg' d Hf0 _ _ Hts _ _ Hf | f rc d Hf0 _ _ Hts _ _ Hf
        | f k' cfg' d -> _ Hts _ _ Hf];
    (split; [|split]).
  - intros tid' n' c' k0. rewrite Hts.
    destruct (decide (tid' = tid)) as [->|Hne];
      [by rewrite lookup_insert_eq | rewrite lookup_insert_ne by done; apply Hlen].
  - intros tid' t. rewrite Hts, Hf.
    destruct (decide (tid' = tid)) as [->|Hne].
    + rewrite lookup_insert_eq. by intros [= <-].
    + rewrite lookup_insert_ne by done. intros Ht' Hw.
      rewrite (Hothers _ _ Hne Ht' Hw). by eapply Hflag.
  - intros tid1 tid2 t1 t2. rewrite Hts.
    destruct (decide (tid1 = tid)) as [->|Hne1];
      [rewrite lookup_insert_eq; by intros [= <-]|].
    destruct (decide (tid2 = tid)) as [->|Hne2];
      [rewrite lookup_insert_eq; by intros _ [= <-]|].
    rewrite !lookup_insert_ne by done. apply Huniq.
  - intros tid' n' c' k0. rewrite Hts.
    destruct (decide (tid' = tid)) as [->|Hne];
      [rewrite lookup_insert_eq; by intros [= _ _ <-]
      | rewrite lookup_insert_ne by done; apply Hlen].
  - intros tid' t _ _. done.
  - intros tid1 tid2 t1 t2. rewrite Hts.
    destruct (decide (tid1 = tid)) as [->|Hne1];
      destruct (decide (tid2 = tid)) as [->|Hne2]; try done;
      rewrite ?lookup_insert_eq, ?lookup_insert_ne by done.
    + intros [= <-] Ht2 Hw1 Hw2. destruct k; [done|].
      symmetry. by eapply Huniq.
    + intros Ht1 [= <-] Hw1 Hw2. destruct k; [done|]. by eapply Huniq.
    + apply Huniq.
  - intros tid' n' c' k0. rewrite Hts.
    destruct (decide (tid' = tid)) as [->|Hne].
    + rewrite lookup_insert_eq. intros [= _ _ <-]. simpl.
      destruct k as [|f0 k]; [simpl; lia|].
      specialize (Hflag _ _ Ht eq_refl). congruence.
    + rewrite lookup_insert_ne by done. apply Hlen.
  - intros tid' t _ _. done.
  - intros tid1 tid2 t1 t2. rewrite Hts.
    assert (Hnone : ∀ tid' t, tasks st !! tid' = Some t → waiting t = true → False).
    { intros tid' t Ht' Hw. specialize (Hflag _ _ Ht' Hw). congruence. }
    destruct (decide (tid1 = tid)) as [->|Hne1];
      destruct (decide (tid2 = tid)) as [->|Hne2]; try done;
      rewrite ?lookup_insert_eq, ?lookup_insert_ne by done.
    + intros _ Ht2 _ Hw2. destruct (Hnone _ _ Ht2 Hw2).
    + intros Ht1 _ Hw1 _. destruct (Hnone _ _ Ht1 Hw1).
    + intros Ht1 _ Hw1 _. destruct (Hnone _ _ Ht1 Hw1).
  - intros tid' n' c' k0. rewrite Hts.
    destruct (decide (tid' = tid)) as [->|Hne].
    + rewrite lookup_insert_eq. intros [= _ _ <-]. simpl in Hk. lia.
    + rewrite lookup_insert_ne by done. apply Hlen.
  - intros tid' t. rewrite Hts, Hf.
    destruct (decide (tid' = tid)) as [->|Hne].
    + rewrite lookup_insert_eq. intros [= <-]. simpl in *.
      destruct k'; [done|]. simpl in Hk. lia.
    + rewrite lookup_insert_ne by done. intros Ht' Hw.
      destruct Hne. by eapply Huniq.
  - intros tid1 tid2 t1 t2. rewrite Hts.
    assert (Hk' : k' = []) by (destruct k'; [done|simpl in Hk; lia]). subst k'.
    destruct (decide (tid1 = tid)) as [->|Hne1];
      [rewrite lookup_insert_eq; by intros [= <-]|].
    destruct (decide (tid2 = tid)) as [->|Hne2];
      [rewrite lookup_insert_eq; by intros _ [= <-]|].
    rewrite !lookup_insert_ne by done. apply Huniq.
Qed.

Lemma bounded_deliver st tid o :
  inv st → single_flight st → bounded st → bounded (deliver tid o st).
Proof.
  intros (Hok & _ & _) (Hlen & Hflag & _) Hb.
  destruct (tasks st !! tid) as [[n cfg k|res]|] eqn:Ht;
    [|by unfold deliver; rewrite Ht..].
  pose proof (Hlen _ _ _ _ Ht) as Hk.
  destruct (Hok _ _ Ht) as (Hframes & _).
  pose proof (Hb tid) as Hbt. rewrite Ht in Hbt.
  assert (Hother : ∀ tid' ts' w d,
            tasks st !! tid' = ts' → tid' ≠ tid → d_task d = tid →
            match ts' with
            | Some t => all_dispatches tid' (wire st) + remaining t ≤ 4
            | None => all_dispatches tid' (wire st) = 0
            end →
            w = wire st ∨ w = wire st ++ [d] →
            match ts' with
            | Some t => all_dispatches tid' w + remaining t ≤ 4
            | None => all_dispatches tid' w = 0
            end).
  { intros tid' ts' w d _ Hne Hd H [->| ->]; [done|].
    rewrite all_dispatches_snoc. rewrite decide_False by congruence.
    by rewrite Nat.add_0_r. }
  destruct (deliver_cases st tid n cfg k o Ht)
    as [res Hts Hw _ | cfg' d Hf0 Hr Hr' Hts Hw Hd _ | f rc d Hf0 Hr Hr' Hts Hw Hd _
        | f k' cfg' d -> Hr' Hts Hw Hd _];
    intros tid'; rewrite Hts;
    (destruct (decide (tid' = tid)) as [->|Hne];
     [rewrite lookup_insert_eq
     | rewrite lookup_insert_ne by done;
       first [ by apply (Hother tid' _ _ (mkDispatch tid 0 0 cfg) eq_refl Hne eq_refl (Hb tid'));
                  left
             | by apply (Hother tid' _ _ d eq_refl Hne Hd (Hb tid')); right ] ]).
  - rewrite Hw. simpl. lia.
  - rewrite Hw, all_dispatches_snoc, decide_True by done. simpl in *.
    rewrite Hr in Hbt. rewrite Hr'. destruct k; lia.
  - rewrite Hw, all_dispatches_snoc, decide_True by done. simpl in *.
    rewrite Hr in Hbt. rewrite Hr'.
    destruct k as [|f0 k]; [lia|].
    specialize (Hflag _ _ Ht eq_refl). congruence.
  - rewrite Hw, all_dispatches_snoc, decide_True by done. simpl in *.
    apply Forall_cons in Hframes as [[_ Hf] _]. rewrite Hr', Hf.
    destruct k' as [|f' k']; [|simpl in Hk; lia].
    destruct (_retry cfg); lia.
Qed.

Lemma single_flight_call st cfg : inv st → single_flight st → single_flight (call cfg st).
Proof.
  intros (_ & Hfresh & _) (Hlen & Hflag & Huniq). unfold call, send; simpl.
  split; [|split]; simpl.
  - intros tid n c k. destruct (decide (tid = nextId st)) as [->|Hne].
    + rewrite lookup_insert_eq. intros [= _ _ <-]. simpl. lia.
    + rewrite lookup_insert_ne by done. apply Hlen.
  - intros tid t. destruct (decide (tid = nextId st)) as [->|Hne].
    + rewrite lookup_insert_eq. by intros [= <-].
    + rewrite lookup_insert_ne by done. apply Hflag.
  - intros tid1 tid2 t1 t2.
    destruct (decide (tid1 = nextId st)) as [->|Hne1];
      [rewrite lookup_insert_eq; by intros [= <-]|].
    destruct (decide (tid2 = nextId st)) as [->|Hne2];
      [rewrite lookup_insert_eq; by intros _ [= <-]|].
    rewrite !lookup_insert_ne by done. apply Huniq.
Qed.

Lemma bounded_call st cfg : inv st → bounded st → bounded (call cfg st).
Proof.
  intros (_ & Hfresh & _) Hb tid. unfold call, send; simpl.
  rewrite all_dispatches_snoc; simpl.
  destruct (decide (tid = nextId st)) as [->|Hne].
  - rewrite lookup_insert_eq, decide_True by done.
    specialize (Hb (nextId st)). rewrite Hfresh in Hb by done. rewrite Hb.
    simpl. rewrite retry_requestInterceptor. destruct (_retry cfg); lia.
  - rewrite lookup_insert_ne, decide_False by done. rewrite Nat.add_0_r. apply Hb.
Qed.

Lemma invariants_step st ev : invariants st → invariants (step st ev).
Proof.
  intros (Hinv & Hs & Hb). split; [by apply inv_step|].
  destruct ev as [cfg|tid o|token]; simpl.
  - split; [by apply single_flight_call | by apply bounded_call].
  - split; [by apply single_flight_deliver | by apply bounded_deliver].
  - done.
Qed.

Lemma invariants_init token : invariants (init token).
Proof.
  split; [apply inv_init|]. split; [split; [|split]|];
    unfold init, bounded; simpl; intros; by rewrite ?lookup_empty in *.
Qed.

(** Every state of a run from the initial state keeps the three invariants. *)
Lemma invariants_run evs st : invariants st → invariants (run evs st).
Proof.
  revert st. induction evs as [|ev evs IH]; intros st H; simpl; [done|].
  apply IH. by apply invariants_step.
Qed.

(** What the flag does achieve: in every run from the initial state at most
    one call waits for a refresh, so at most one refresh request is pending. *)
Lemma refresh_is_single_flight token evs : single_flight (run evs (init token)).
Proof. apply (invariants_run evs _ (invariants_init token)). Qed.

Lemma bounded_all_dispatches st tid : bounded st → all_dispatches tid (wire st) ≤ 4.
Proof.
  intros Hb. specialize (Hb tid). destruct (tasks st !! tid); lia.
Qed.

(** C2: in every run from the initial state, the request of a call is
    dispatched at most twice (once, and at most one replay), the call causes
    at most four dispatches in all (with the refresh request and its replay),
    and a 401 for the replay settles the call with that very error: the wire,
    the credential store, [isRefreshing] and the browser location stay as
    they are, so nothing is refreshed or replayed again. *)
Theorem request_replayed_at_most_once :
  ∀ token evs tid,
    let st := run evs (init token) in
    dispatches tid (wire st) ≤ 2
    ∧ all_dispatches tid (wire st) ≤ 4
    ∧ ∀ cfg r,
        tasks st !! tid = Some (InFlight 2 cfg []) → status r = 401 →
        deliver tid (Replied r) st
        = set_task tid (Settled (Rejected (mkError cfg (Some r)))) st.
Proof.
  intros token evs tid st.
  destruct (invariants_run evs _ (invariants_init token)) as (Hinv & _ & Hb).
  fold st in Hinv, Hb.
  split; [by apply inv_dispatches|]. split; [by apply bounded_all_dispatches|].
  intros cfg r Ht Hs.
  destruct Hinv as (Hok & _ & _). destruct (Hok _ _ Ht) as (_ & _ & Hr & _).
  assert (Hretry : _retry cfg = true).
  { destruct (_retry cfg); [done|]. specialize (Hr eq_refl). lia. }
  rewrite (deliver_eq _ _ _ _ _ _ Ht).
  destruct (status_401 r Hs) as [-> H401].
  unfold responseError. simpl. rewrite Hretry, andb_false_r. reflexivity.
Qed.

(** The replay of [GET /sessions] after a successful refresh is answered
    401. *)
Lemma request_replayed_at_most_once_witness :
  let st := run [Call getSessions; Deliver 0 (Replied unauthorized);
                 Deliver 0 (Replied renewed)] (init (Some "old")) in
  dispatches 0 (wire st) ≤ 2
  ∧ deliver 0 (Replied unauthorized) st
    = set_task 0
        (Settled (Rejected (mkError (mkConfig "/sessions" GET None (Some "Bearer new") true)
                                    (Some unauthorized)))) st.
Proof.
  destruct (request_replayed_at_most_once (Some "old")
              [Call getSessions; Deliver 0 (Replied unauthorized);
               Deliver 0 (Replied renewed)] 0) as (H1 & _ & H2).
  split; [exact H1|]. apply H2; reflexivity.
Defined.

(** C1: two requests are answered 401 before the refresh answers.  One
    refresh request is dispatched, but the handler of the second 401 replays
    its request at once: the replay is on the wire with the old token while
    the refresh is pending and the store still holds the old token.  When the
    refresh then succeeds, the first caller is served with the new token and
    the second caller is rejected with the 401 of its early replay.  The
    claim (store updated before any replay, every caller's outcome that of the
    one refresh) does not hold of this run. *)
Theorem concurrent_401_replays_with_stale_token :
  (* both 401 have been handled, the one refresh is still unanswered *)
  isRefreshing bothUnauthorized = true
  ∧ getAccessToken bothUnauthorized = Some "old"
  ∧ refresh_dispatches (wire bothUnauthorized) = 1
  ∧ outcome 0 bothUnauthorized = None
  (* and the second request is already back on the wire, with the old token *)
  ∧ last (wire bothUnauthorized)
    = Some (mkDispatch 1 0 2
              (mkConfig "/sessions/s1/documents" GET None (Some "Bearer old") true))
  (* the refresh succeeds: the first caller gets its answer, the second the 401
     of its early replay *)
  ∧ getAccessToken bothSettled = Some "new"
  ∧ refresh_dispatches (wire bothSettled) = 1
  ∧ outcome 0 bothSettled = Some (Resolved sessionsPage)
  ∧ outcome 1 bothSettled
    = Some (Rejected
              (mkError (mkConfig "/sessions/s1/documents" GET None (Some "Bearer old") true)
                       (Some unauthorized))).
Proof. vm_compute. repeat split; reflexivity. Qed.

End ApiProofs.

(** * Properties of the entity stores *)

Module ChatProofs.
Import Chat.

(** *** Texts: every sequence of code units is the reading of a string *)

Lemma append_String c s t : String c s +:+ t = String c (s +:+ t).
Proof. reflexivity. Qed.

Lemma append_empty t : "" +:+ t = t.
Proof. reflexivity. Qed.

Lemma byte_of_N n : (n < 256)%N → byte (Ascii.ascii_of_N n) = n.
Proof. apply Ascii.N_ascii_embedding. Qed.

Ltac euclid := zify; Z.to_euclidean_division_equations; lia.

Lemma units_written t : Forall (λ u, (u < 65536)%N) t → units (written t) = t.
Proof.
  induction 1 as [|u t Hu _ IH]; [done|].
  cbn [written]. unfold written1.
  destruct (N.ltb_spec u 128) as [H1|H1]; [|destruct (N.ltb_spec u 2048) as [H2|H2]].
  - rewrite !append_String, append_empty; cbn [units]. rewrite byte_of_N by lia.
    destruct (N.ltb_spec u 128); [|lia]. by rewrite IH.
  - rewrite !append_String, append_empty; cbn [units].
    unfold continuation, bits. rewrite !byte_of_N by euclid.
    destruct (N.ltb_spec (192 + u / 64) 128); [euclid|].
    destruct (N.leb_spec 128 (128 + u mod 64)); [|euclid].
    destruct (N.ltb_spec (128 + u mod 64) 192); [|euclid].
    destruct (N.leb_spec 192 (192 + u / 64)); [|euclid].
    destruct (N.ltb_spec (192 + u / 64) 224); [|euclid].
    cbn [andb]. rewrite IH. f_equal. euclid.
  - rewrite !append_String, append_empty; cbn [units].
    unfold continuation, bits. rewrite !byte_of_N by euclid.
    destruct (N.ltb_spec (224 + u / 4096) 128); [euclid|].
    destruct (N.leb_spec 128 (128 + (u / 64) mod 64)); [|euclid].
    destruct (N.ltb_spec (128 + (u / 64) mod 64) 192); [|euclid].
    destruct (N.leb_spec 192 (224 + u / 4096)); [|euclid].
    destruct (N.ltb_spec (224 + u / 4096) 224); [euclid|].
    destruct (N.leb_spec 128 (128 + u mod 64)); [|euclid].
    destruct (N.ltb_spec (128 + u mod 64) 192); [|euclid].
    destruct (N.leb_spec 224 (224 + u / 4096)); [|euclid].
    destruct (N.ltb_spec (224 + u / 4096) 240); [|euclid].
    cbn [andb]. rewrite IH. f_equal. euclid.
Qed.

(** The ideographic space, the byte-order mark and the line separator are
    white space; the zero-width space is not. *)
Example white_space_beyond_latin1 :
  units "　" = [0x3000%N]
  ∧ whitespaceOnly "　　" = true
  ∧ whitespaceOnly (written [0xFEFF; 0x2028; 0x2003; 0xA0; 0x9]%N) = true
  ∧ whitespaceOnly (written [0x200B]%N) = false.
Proof. repeat split; reflexivity. Qed.

(** *** [trim] and blank strings *)

Lemma trimStart_blank t : forallb isWhiteSpace t = true → trimStart t = [].
Proof.
  induction t as [|u t IH]; simpl; [done|].
  intros [Hu Ht]%andb_true_iff. rewrite Hu. by apply IH.
Qed.

Lemma trimStart_empty t : trimStart t = [] → forallb isWhiteSpace t = true.
Proof.
  induction t as [|u t IH]; simpl; [done|].
  destruct (isWhiteSpace u); [apply IH | discriminate].
Qed.

Lemma forallb_rev (p : CodeUnit → bool) t : forallb p (rev t) = forallb p t.
Proof.
  induction t as [|u t IH]; simpl; [done|].
  rewrite forallb_app, IH. simpl. rewrite andb_true_r. apply andb_comm.
Qed.

Lemma forallb_trimStart t :
  forallb isWhiteSpace (trimStart t) = true → forallb isWhiteSpace t = true.
Proof.
  induction t as [|u t IH]; simpl; [done|].
  destruct (isWhiteSpace u) eqn:E; simpl; [done|]. by rewrite E.
Qed.

Lemma trim_blank s : trim s = [] ↔ whitespaceOnly s = true.
Proof.
  unfold trim, whitespaceOnly. split.
  - intros H. apply (f_equal (@rev _)) in H. rewrite rev_involutive in H. simpl in H.
    apply trimStart_empty in H. rewrite forallb_rev in H.
    by apply forallb_trimStart.
  - intros H. by rewrite (trimStart_blank _ H).
Qed.

(** *** The message of a failed call *)

(** C9: when the call fails, [fetchSessions], [createSession],
    [deleteSession], [loadSession], [fetchDocuments] and [deleteDocument]
    leave sessions, selection, messages and documents exactly as they were,
    lower [isLoading], and record as [error] the server's [detail] if the
    error has a response with a non-empty one, and a fixed fallback
    otherwise (no response, no [detail], or an empty one). *)
Theorem failed_call_leaves_collection_unchanged :
  ∀ (err : Api.AxiosError) (s : useSession.State) (d : useDocuments.State)
    (title : string) (description : option string) (sessionId documentId : string)
    (arrival : Arrival),
    let recorded := λ message : string → string,
      let failed := λ fallback,
        useSession.mkState (useSession.sessions s) (useSession.currentSession s)
          (useSession.messages s) false (Some (message fallback)) in
      let failedDocs := λ fallback,
        useDocuments.mkState (useDocuments.documents d) false (Some (message fallback)) in
      final (run useSession.fetchSessions (failing err) s)
        = failed "Failed to fetch sessions"
      ∧ final (run (useSession.createSession title description) (failing err) s)
        = failed "Failed to create session"
      ∧ final (run (useSession.deleteSession s sessionId) (failing err) s)
        = failed "Failed to delete session"
      ∧ final (run (useSession.loadSession arrival sessionId) (failing err) s)
        = failed "Failed to load session"
      ∧ final (run (useDocuments.fetchDocuments sessionId) (failing err) d)
        = failedDocs "Failed to fetch documents"
      ∧ final (run (useDocuments.deleteDocument documentId) (failing err) d)
        = failedDocs "Failed to delete document" in
    (∀ r detail,
       Api.response err = Some r → Api.detail r = Some detail → detail ≠ "" →
       recorded (λ _, detail))
    ∧ (Api.response err = None
       ∨ (∃ r, Api.response err = Some r
               ∧ (Api.detail r = None ∨ Api.detail r = Some "")) →
       recorded (λ fallback, fallback)).
Proof.
  intros err s d title description sessionId documentId arrival recorded.
  assert (Hrec : ∀ message,
            (∀ fallback, errorMessage fallback err = message fallback) →
            recorded message).
  { intros message Hm. subst recorded. cbv beta zeta.
    rewrite <- !Hm. unfold run. destruct arrival; by repeat split. }
  split.
  - intros r detail Hr Hd Hne. apply Hrec. intros fallback.
    unfold errorMessage. rewrite Hr, Hd. by destruct (String.eqb_spec detail "").
  - intros H. apply Hrec. intros fallback. unfold errorMessage.
    destruct H as [->|(r & -> & [->| ->])]; reflexivity.
Qed.

(** A refused delete records the server's ["Not your session"]; a list call
    that got no answer records the fallback. *)
Lemma failed_call_leaves_collection_unchanged_witness :
  final (run (useSession.deleteSession (ChatPage.session thesisPage) "s1")
             (failing forbidden) (ChatPage.session thesisPage))
  = useSession.mkState [thesis; notes] (Some thesis) [hello] false (Some "Not your session")
  ∧ final (run useSession.fetchSessions (failing serverDown) (ChatPage.session thesisPage))
    = useSession.mkState [thesis; notes] (Some thesis) [hello] false
        (Some "Failed to fetch sessions").
Proof.
  split.
  - destruct (failed_call_leaves_collection_unchanged forbidden (ChatPage.session thesisPage)
                useDocuments.initial "" None "s1" "" InOrder) as [H _].
    destruct (H (Api.mkResponse 403 (Some "Not your session") None "") "Not your session"
                eq_refl eq_refl) as (_ & _ & Hdel & _); [discriminate|].
    exact Hdel.
  - destruct (failed_call_leaves_collection_unchanged serverDown (ChatPage.session thesisPage)
                useDocuments.initial "" None "s1" "" InOrder) as [_ H].
    destruct (H (or_introl eq_refl)) as (Hfetch & _).
    exact Hfetch.
Defined.

(** A rejected delete with a [detail] shows the detail; a call that got no
    answer shows the fallback. *)
Example failed_delete_shows_detail :
  useSession.error
    (final (run (useSession.deleteSession (ChatPage.session thesisPage) "s1")
                (failing forbidden) (ChatPage.session thesisPage)))
  = Some "Not your session".
Proof. reflexivity. Qed.

Example failed_fetch_shows_fallback :
  final (run useSession.fetchSessions (failing serverDown) (ChatPage.session thesisPage))
  = useSession.mkState [thesis; notes] (Some thesis) [hello] false
      (Some "Failed to fetch sessions").
Proof. reflexivity. Qed.





(** The panel passes [session_id] to the handler, and [deleteSession] compares
    it with [id]: where the two differ, the delete call is made and the
    selection stays. *)
Example delete_by_session_id_keeps_selection :
  let r := run (ChatPage.handleDeleteSession archivePage "s9") server archivePage in
  map request (issued r) = [existT _ (DeleteSession "s9"); existT _ ListSessions]
  ∧ useSession.currentSession (ChatPage.session (final r)) = Some archive.
Proof. split; reflexivity. Qed.

(** C7: a click on Create with an empty or white-space-only title issues no
    call, leaves the session store as it is and shows the alert; with any
    other title exactly one [POST /sessions] is issued, and when it succeeds
    the new session is at the front of the list, before the sessions that
    were there, and is the current selection. *)
Theorem create_session_prepends_and_selects :
  ∀ (pg : ChatPage.State) (net : Oracle),
    let title := SessionPanel.newSessionTitle (ChatPage.panel pg) in
    let description := SessionPanel.newSessionDescription (ChatPage.panel pg) in
    let body := mkSessionCreate title (orNull (Some description)) in
    let r := run (ChatPage.clickCreate pg) net pg in
    (whitespaceOnly title = true →
       issued r = []
       ∧ ChatPage.session (final r) = ChatPage.session pg
       ∧ ChatPage.alerts (final r) = ChatPage.alerts pg ++ ["Please enter a session title"])
    ∧ (whitespaceOnly title = false →
       map request (issued r) = [existT _ (CreateSession body)]
       ∧ ∀ newSession,
           net 0 _ (CreateSession body) = Ok newSession →
           useSession.sessions (ChatPage.session (final r))
             = newSession :: useSession.sessions (ChatPage.session pg)
           ∧ useSession.currentSession (ChatPage.session (final r)) = Some newSession).
Proof.
  intros pg net title description body r. subst r body.
  unfold ChatPage.clickCreate, SessionPanel.handleCreateSession,
    ChatPage.handleCreateSession, useSession.createSession.
  fold title description.
  assert (Hbody : orNull (orNull (Some description)) = orNull (Some description)).
  { unfold orNull. destruct (String.eqb_spec description ""); simpl; [done|].
    by destruct (String.eqb_spec description ""). }
  remember (orNull (Some description)) as d eqn:Ed. rewrite Hbody. clear Ed Hbody.
  split.
  - intros Hblank. apply trim_blank in Hblank. rewrite Hblank. simpl.
    repeat split; reflexivity.
  - intros Hname.
    destruct (trim title) as [|u rest] eqn:Hempty.
    { apply trim_blank in Hempty. congruence. }
    unfold run. simpl.
    destruct (net 0 _ (CreateSession (mkSessionCreate title d))) as [created|e]; simpl.
    + split; [reflexivity|]. by intros newSession [= <-].
    + split; [reflexivity|]. intros newSession [=].
Qed.

(** A title of two spaces, a title of two ideographic spaces, and the title
    ["Draft"]. *)
Lemma create_session_prepends_and_selects_witness :
  (let r := run (ChatPage.clickCreate (withTitle "  ")) server (withTitle "  ") in
   issued r = []
   ∧ ChatPage.session (final r) = ChatPage.session thesisPage)
  ∧ (let r := run (ChatPage.clickCreate (withTitle "　　")) server (withTitle "　　") in
     issued r = []
     ∧ ChatPage.alerts (final r) = ["Please enter a session title"])
  ∧ (let r := run (ChatPage.clickCreate (withTitle "Draft")) server (withTitle "Draft") in
     let draft := mkSession "s3" "s3" "Draft" None 0
                    "2024-05-03T10:00:00Z" "2024-05-03T10:00:00Z" true in
     useSession.sessions (ChatPage.session (final r)) = [draft; thesis; notes]
     ∧ useSession.currentSession (ChatPage.session (final r)) = Some draft).
Proof.
  split; [|split].
  - destruct (create_session_prepends_and_selects (withTitle "  ") server) as [H _].
    destruct (H eq_refl) as (H1 & H2 & _). split; assumption.
  - destruct (create_session_prepends_and_selects (withTitle "　　") server) as [H _].
    destruct (H eq_refl) as (H1 & _ & H3). split; assumption.
  - destruct (create_session_prepends_and_selects (withTitle "Draft") server) as [_ H].
    destruct (H eq_refl) as [_ H']. apply (H' _ eq_refl).
Defined.

(** C8: with a session selected, asking a query issues one call, at a moment
    when the user message is already at the end of the list; a successful
    answer leaves the list two entries longer (the user message, then an
    assistant message with the answer), a failed one leaves it one entry
    longer (the user message).  [addMessage] appends at the end whatever the
    timestamps, and [loadSession] takes the list of the server in the order
    it comes. *)
Theorem ask_query_appends_in_order :
  ∀ (pg : ChatPage.State) (currentSession : Session) (clock clock' : Clock)
    (query : string) (net : Oracle),
    useSession.currentSession (ChatPage.session pg) = Some currentSession →
    let r := run (ChatPage.handleAskQuery pg clock clock' query) net pg in
    let ask := AskQuery (session_id currentSession) (mkQueryRequest query false true) in
    let before := useSession.messages (ChatPage.session pg) in
    let userMessage :=
      mkMessage (now clock) (session_id currentSession) user query None
                (toISOString clock) in
    (∃ atCall, issued r = [mkIssued (existT _ ask) atCall]
               ∧ useSession.messages (ChatPage.session atCall) = before ++ [userMessage])
    ∧ (∀ response, net 0 _ ask = Ok response →
         ∃ assistantMessage,
           role assistantMessage = assistant
           ∧ content assistantMessage = answer response
           ∧ useSession.messages (ChatPage.session (final r))
             = before ++ [userMessage; assistantMessage])
    ∧ (∀ err, net 0 _ ask = Err err →
         useSession.messages (ChatPage.session (final r)) = before ++ [userMessage])
    ∧ (∀ (s : useSession.State) (message : SessionMessage),
         useSession.messages (final (run (useSession.addMessage message) net s))
         = useSession.messages s ++ [message])
    ∧ (∀ (s : useSession.State) (sessionId : string) sessionData loaded arrival,
         net 0 _ (GetSession sessionId) = Ok sessionData →
         net 1 _ (ListMessages sessionId) = Ok (Some loaded) →
         useSession.messages (final (run (useSession.loadSession arrival sessionId) net s))
         = loaded).
Proof.
  intros pg currentSession clock clock' query net Hcur. simpl.
  unfold run, ChatPage.handleAskQuery. rewrite Hcur. simpl.
  destruct (net 0 _ (AskQuery (session_id currentSession)
                       (mkQueryRequest query false true))) as [response|err];
    simpl; (split; [|split; [|split; [|split]]]).
  - eexists. split; reflexivity.
  - intros ? [= <-]. eexists. split; [|split]; [| |by rewrite <- app_assoc];
      reflexivity.
  - intros ? [=].
  - reflexivity.
  - intros s sessionId sessionData loaded arrival H0 H1. simpl. by rewrite H0, H1.
  - eexists. split; reflexivity.
  - intros ? [=].
  - intros ? [= <-]. reflexivity.
  - reflexivity.
  - intros s sessionId sessionData loaded arrival H0 H1. simpl. by rewrite H0, H1.
Qed.

(** A query on the sample page, answered by the sample server. *)
Lemma ask_query_appends_in_order_witness :
  let r := run (ChatPage.handleAskQuery thesisPage noon noon "Why?") server thesisPage in
  map role (useSession.messages (ChatPage.session (final r))) = [user; user; assistant]
  ∧ map content (useSession.messages (ChatPage.session (final r)))
    = ["What is the claim?"; "Why?"; "No documents yet."].
Proof.
  destruct (ask_query_appends_in_order thesisPage thesis noon noon "Why?" server eq_refl)
    as (_ & Hok & _).
  destruct (Hok _ eq_refl) as (m & Hrole & Hcontent & Hm).
  cbv zeta. rewrite Hm, !map_app. simpl. rewrite Hrole, Hcontent.
  split; reflexivity.
Defined.

End ChatProofs.

(** * Further properties of the request pipeline *)

Module ApiExtra.
Import Api ApiMore ApiProofs.

(** *** One answer touches one call *)

Lemma deliver_other st tid tid' o :
  tid' ≠ tid → tasks (deliver tid o st) !! tid' = tasks st !! tid'.
Proof.
  intros Hne. destruct (tasks st !! tid) as [[n cfg k|res]|] eqn:Ht;
    [|by unfold deliver; rewrite Ht..].
  destruct (deliver_cases st tid n cfg k o Ht)
    as [res Hts _ _ | cfg' d _ _ _ Hts _ _ _ | f rc d _ _ _ Hts _ _ _
        | f k' cfg' d _ _ Hts _ _ _];
    rewrite Hts; by apply lookup_insert_ne.
Qed.

Lemma deliver_nextId st tid o : nextId (deliver tid o st) = nextId st.
Proof.
  unfold deliver. destruct (tasks st !! tid) as [[n cfg k|res]|]; try done.
  assert (Hrej : ∀ e, nextId (reject tid e k st) = nextId st).
  { intros e. by destruct (reject_shape tid e k st) as (? & _ & _ & ->). }
  assert (Herr : ∀ e, nextId (responseError tid n e k st) = nextId st).
  { intros e. unfold responseError.
    destruct (is401 e && negb (_retry (config e))); [|apply Hrej].
    by destruct (isRefreshing st). }
  destruct o as [r|]; [|apply Herr].
  destruct (ok2xx r); [|apply Herr].
  unfold resolve. destruct k; [done|]. simpl. by destruct (truthy _).
Qed.

(** X1: an answer for call [tid] leaves every other call as it is, hands
    out no identifier, and what it puts on the wire (at most one request)
    is dispatched for call [tid]. *)
Theorem answer_touches_one_call :
  ∀ st tid o,
    (∀ tid', tid' ≠ tid → tasks (deliver tid o st) !! tid' = tasks st !! tid')
    ∧ nextId (deliver tid o st) = nextId st
    ∧ ∃ new, wire (deliver tid o st) = wire st ++ new
             ∧ length new ≤ 1
             ∧ Forall (λ d, d_task d = tid) new.
Proof.
  intros st tid o. split; [intros; by apply deliver_other|].
  split; [apply deliver_nextId|].
  destruct (tasks st !! tid) as [[n cfg k|res]|] eqn:Ht;
    [|exists []; unfold deliver; rewrite Ht, app_nil_r; repeat split;
      [simpl; lia | constructor]..].
  destruct (deliver_cases st tid n cfg k o Ht)
    as [res _ Hw _ | cfg' d _ _ _ _ Hw Hd _ | f rc d _ _ _ _ Hw Hd _
        | f k' cfg' d _ _ _ Hw Hd _].
  - exists []. rewrite Hw, app_nil_r. repeat split; [simpl; lia | constructor].
  - exists [d]. repeat split; [done | simpl; lia | by constructor].
  - exists [d]. repeat split; [done | simpl; lia | by constructor].
  - exists [d]. repeat split; [done | simpl; lia | by constructor].
Qed.


(** *** Calls keep their place *)

Lemma step_keeps_task st ev tid t :
  inv st → tasks st !! tid = Some t → answers_to tid ev = false →
  tasks (step st ev) !! tid = Some t.
Proof.
  intros Hinv Ht Hev. destruct ev as [cfg|tid' o|token]; simpl.
  - pose proof (inv_lt _ _ _ Hinv Ht). unfold call, send; simpl.
    rewrite lookup_insert_ne by lia. done.
  - simpl in Hev. apply Nat.eqb_neq in Hev. by rewrite deliver_other.
  - done.
Qed.

Lemma deliver_settled st tid res o :
  tasks st !! tid = Some (Settled res) → deliver tid o st = st.
Proof. intros H. unfold deliver. by rewrite H. Qed.

Lemma step_keeps_settled st ev tid res :
  inv st → tasks st !! tid = Some (Settled res) →
  tasks (step st ev) !! tid = Some (Settled res).
Proof.
  intros Hinv Ht. destruct (answers_to tid ev) eqn:Hev.
  - destruct ev as [|tid' o|]; try done. simpl in Hev.
    apply Nat.eqb_eq in Hev as ->. simpl. by rewrite (deliver_settled _ _ _ _ Ht).
  - by apply step_keeps_task.
Qed.

(** X2: once a call is settled its outcome stays, whatever happens
    next: later answers for it are ignored and no later call takes its place. *)
Theorem outcome_is_final :
  ∀ token evs evs' tid res,
    outcome tid (run evs (init token)) = Some res →
    outcome tid (run evs' (run evs (init token))) = Some res.
Proof.
  intros token evs evs' tid res.
  generalize (inv_run evs _ (inv_init token)).
  generalize (run evs (init token)). clear evs token.
  induction evs' as [|ev evs' IH]; intros st Hinv Hout; simpl; [done|].
  apply IH; [by apply inv_step|].
  unfold outcome in *.
  destruct (tasks st !! tid) as [[n cfg k|r]|] eqn:Ht; try done.
  injection Hout as ->. by rewrite (step_keeps_settled _ _ _ _ Hinv Ht).
Qed.

(** The call of [GET /sessions] is rejected after a failed refresh; a late
    answer and a new call change nothing of that. *)
Lemma outcome_is_final_witness :
  let st := run [Call getSessions; Deliver 0 (Replied unauthorized);
                 Deliver 0 (Replied unavailable)] (init (Some "old")) in
  outcome 0 (run [Deliver 0 (Replied sessionsPage); Call getDocuments] st)
  = Some (Rejected (mkError (mkConfig "/sessions" GET None (Some "Bearer old") true)
                            (Some unauthorized))).
Proof.
  apply (outcome_is_final (Some "old")
           [Call getSessions; Deliver 0 (Replied unauthorized);
            Deliver 0 (Replied unavailable)]).
  reflexivity.
Defined.

(** *** Every call is settled after four answers *)

Lemma potential_le t : potential t ≤ 4.
Proof. destruct t as [n cfg [|f k]|res]; simpl; [destruct (_retry cfg)..|]; lia. Qed.

Lemma potential_deliver st tid o t :
  invariants st → tasks st !! tid = Some t →
  ∃ t', tasks (deliver tid o st) !! tid = Some t'
        ∧ potential t' ≤ potential t - 1.
Proof.
  intros ((Hok & _ & _) & (Hlen & Hflag & _) & _) Ht.
  destruct t as [n cfg k|res].
  2:{ exists (Settled res). rewrite (deliver_settled _ _ _ _ Ht). split; [done|simpl; lia]. }
  pose proof (Hlen _ _ _ _ Ht) as Hk.
  destruct (Hok _ _ Ht) as (Hframes & _).
  destruct (deliver_cases st tid n cfg k o Ht)
    as [res Hts _ _ | cfg' d Hf0 Hr Hr' Hts _ _ _ | f rc d Hf0 Hr Hr' Hts _ _ _
        | f k' cfg' d -> Hr' Hts _ _ _];
    rewrite Hts, lookup_insert_eq; eexists; (split; [reflexivity|]); simpl.
  - lia.
  - rewrite Hr, Hr'. destruct k; lia.
  - rewrite Hr, Hr'. destruct k as [|f0 k]; [lia|].
    specialize (Hflag _ _ Ht eq_refl). congruence.
  - apply Forall_cons in Hframes as [[_ Hf] _]. rewrite Hr', Hf.
    destruct k' as [|f' k']; [|simpl in Hk; lia]. destruct (_retry cfg); lia.
Qed.

Lemma potential_run evs st tid t :
  invariants st → tasks st !! tid = Some t →
  ∃ t', tasks (run evs st) !! tid = Some t'
        ∧ potential t' ≤ potential t - answers tid evs.
Proof.
  revert st t. induction evs as [|ev evs IH]; intros st t Hinv Ht.
  - exists t. split; [done|unfold answers; simpl; lia].
  - assert (Hstep : ∃ t1, tasks (step st ev) !! tid = Some t1
              ∧ potential t1 ≤ potential t - (if answers_to tid ev then 1 else 0)).
    { destruct (answers_to tid ev) eqn:Hev.
      - destruct ev as [|tid' o|]; try done. simpl in Hev.
        apply Nat.eqb_eq in Hev as ->. by apply potential_deliver.
      - exists t. split; [apply step_keeps_task; try done; apply Hinv | lia]. }
    destruct Hstep as (t1 & Ht1 & Hp1).
    destruct (IH _ _ (invariants_step _ ev Hinv) Ht1) as (t' & Ht' & Hp').
    exists t'. split; [done|]. unfold answers in *. simpl.
    destruct (answers_to tid ev); simpl; lia.
Qed.

(** X3: in a run from the initial state, a call that has been made is
    settled once the network has answered four times for it, whatever other
    calls, answers and store writes come in between. *)
Theorem call_settles_within_four_answers :
  ∀ token evs evs' tid,
    let st := run evs (init token) in
    is_Some (tasks st !! tid) →
    4 ≤ answers tid evs' →
    is_Some (outcome tid (run evs' st)).
Proof.
  intros token evs evs' tid st [t Ht] Hans.
  destruct (potential_run evs' st tid t (invariants_run evs _ (invariants_init token)) Ht)
    as (t' & Ht' & Hp).
  pose proof (potential_le t). unfold outcome. rewrite Ht'.
  destruct t' as [n cfg k|res]; [simpl in Hp; lia | by eexists].
Qed.

(** The longest life of a call: its 401, a 401 for the refresh request, a
    renewal for the replay of the refresh request, and the answer to its own
    replay, with the 401 of another call in between. *)
Lemma call_settles_within_four_answers_witness :
  outcome 0
    (run [Deliver 0 (Replied unauthorized); Deliver 1 (Replied unauthorized);
          Deliver 0 (Replied refreshDenied); Deliver 0 (Replied renewed);
          Deliver 0 (Replied sessionsPage)]
         (run [Call getSessions; Call getDocuments] (init (Some "old"))))
  = Some (Resolved sessionsPage).
Proof.
  destruct (call_settles_within_four_answers (Some "old")
              [Call getSessions; Call getDocuments]
              [Deliver 0 (Replied unauthorized); Deliver 1 (Replied unauthorized);
               Deliver 0 (Replied refreshDenied); Deliver 0 (Replied renewed);
               Deliver 0 (Replied sessionsPage)] 0) as [res Hres].
  - by eexists.
  - vm_compute. lia.
  - rewrite Hres. revert Hres. vm_compute. by intros [= <-].
Defined.


(** *** The flag and the refresh request in flight *)

(** The request in flight after an answer: the same request marked, a
    refresh request, or the request a handler was waiting with. *)
Lemma deliver_in_flight st tid n cfg k o n' cfg' k' :
  tasks st !! tid = Some (InFlight n cfg k) →
  tasks (deliver tid o st) !! tid = Some (InFlight n' cfg' k') →
  (k' = k ∧ url cfg' = url cfg)
  ∨ (∃ f, k' = f :: k ∧ url cfg' = REFRESH)
  ∨ (∃ f, k = f :: k' ∧ url cfg' = url (originalRequest f)).
Proof.
  intros Ht. rewrite (deliver_eq _ _ _ _ _ _ Ht).
  assert (Hrej : ∀ e, tasks (reject tid e k st) !! tid ≠ Some (InFlight n' cfg' k')).
  { intros e. destruct (reject_shape tid e k st) as (e' & -> & _).
    by rewrite lookup_insert_eq. }
  assert (Herr : ∀ e, config e = cfg →
            tasks (responseError tid n e k st) !! tid = Some (InFlight n' cfg' k') →
            (k' = k ∧ url cfg' = url cfg)
            ∨ (∃ f, k' = f :: k ∧ url cfg' = REFRESH)
            ∨ (∃ f, k = f :: k' ∧ url cfg' = url (originalRequest f))).
  { intros e He. unfold responseError. rewrite He.
    destruct (is401 e && negb (_retry cfg)); [|by intros ?%Hrej].
    destruct (isRefreshing st); rewrite tasks_send; intros [= _ <- <-].
    - left. by rewrite url_requestInterceptor.
    - right; left. eexists. by rewrite url_requestInterceptor. }
  destruct o as [r|]; [destruct (ok2xx r)|]; try by apply Herr.
  unfold resolve. destruct k as [|f k0].
  - simpl. by rewrite lookup_insert_eq.
  - rewrite tasks_send. intros [= _ <- <-]. right; right. exists f.
    by rewrite url_requestInterceptor.
Qed.

Lemma refreshing_inv_deliver st tid o :
  single_flight st → refreshing_inv st → refreshing_inv (deliver tid o st).
Proof.
  intros (Hlen & Hflag & Huniq) (Hup & Hurl).
  destruct (tasks st !! tid) as [[n cfg k|res]|] eqn:Ht;
    [|by unfold deliver; rewrite Ht..].
  pose proof (Hlen _ _ _ _ Ht) as Hk.
  split.
  - destruct (deliver_cases st tid n cfg k o Ht)
      as [res Hts _ Hf | cfg' d Hf0 _ _ Hts _ _ Hf | f rc d Hf0 _ _ Hts _ _ Hf
          | f k' cfg' d -> _ Hts _ _ Hf]; rewrite Hf, Hts.
    + destruct k as [|f k]; [|done]. intros Hup'.
      destruct (Hup Hup') as (tid0 & t0 & Ht0 & Hw0).
      exists tid0, t0. split; [|done]. rewrite lookup_insert_ne; [done|].
      intros <-. rewrite Ht in Ht0. by injection Ht0 as <-.
    + intros _. destruct (Hup Hf0) as (tid0 & t0 & Ht0 & Hw0).
      destruct (decide (tid0 = tid)) as [->|Hne].
      * rewrite Ht in Ht0. injection Ht0 as <-.
        eexists tid, _. rewrite lookup_insert_eq. split; [done|].
        by destruct k.
      * exists tid0, t0. by rewrite lookup_insert_ne.
    + intros _. eexists tid, _. rewrite lookup_insert_eq. by split.
    + done.
  - intros tid' n' cfg' k' Ht' Hk'.
    destruct (decide (tid' = tid)) as [->|Hne].
    + destruct (deliver_in_flight _ _ _ _ _ _ _ _ _ Ht Ht')
        as [[-> Hu] | [(f & -> & Hu) | (f & -> & Hu)]].
      * rewrite Hu. by eapply Hurl.
      * done.
      * destruct k'; [done|simpl in Hk; lia].
    + rewrite deliver_other in Ht' by done. by eapply Hurl.
Qed.

Lemma refreshing_inv_step st ev :
  invariants st → refreshing_inv st → refreshing_inv (step st ev).
Proof.
  intros (Hinv & Hs & _) Hr. destruct ev as [cfg|tid o|token]; simpl.
  - destruct Hr as (Hup & Hurl). unfold call, send; split; simpl.
    + intros Hf. destruct (Hup Hf) as (tid0 & t0 & Ht0 & Hw0).
      exists tid0, t0. split; [|done].
      pose proof (inv_lt _ _ _ Hinv Ht0). by rewrite lookup_insert_ne by lia.
    + intros tid n c k. destruct (decide (tid = nextId st)) as [->|Hne].
      * rewrite lookup_insert_eq. by intros [= _ _ <-].
      * rewrite lookup_insert_ne by done. apply Hurl.
  - by apply refreshing_inv_deliver.
  - done.
Qed.

Lemma refreshing_inv_run evs st :
  invariants st → refreshing_inv st → refreshing_inv (run evs st).
Proof.
  revert st. induction evs as [|ev evs IH]; intros st Hinv Hr; simpl; [done|].
  apply IH; [by apply invariants_step | by apply refreshing_inv_step].
Qed.

Lemma refreshing_inv_init token : refreshing_inv (init token).
Proof. split; [done|]. intros tid n cfg k. simpl. by rewrite lookup_empty. Qed.

(** X4: in every run from the initial state, [isRefreshing] is up
    exactly when some call waits for a refresh; then that call is the only
    one, it waits with one handler, and the request in flight for it is a
    request to the refresh endpoint. *)
Theorem flag_tracks_the_refresh :
  ∀ token evs,
    let st := run evs (init token) in
    (isRefreshing st = true ↔
       ∃ tid n cfg f, tasks st !! tid = Some (InFlight n cfg [f]) ∧ url cfg = REFRESH)
    ∧ (∀ tid1 tid2 n1 n2 cfg1 cfg2 f1 f2 k1 k2,
         tasks st !! tid1 = Some (InFlight n1 cfg1 (f1 :: k1)) →
         tasks st !! tid2 = Some (InFlight n2 cfg2 (f2 :: k2)) →
         tid1 = tid2).
Proof.
  intros token evs st.
  pose proof (invariants_run evs _ (invariants_init token)) as Hinv.
  pose proof (refreshing_inv_run evs _ (invariants_init token) (refreshing_inv_init token))
    as (Hup & Hurl).
  fold st in Hinv, Hup, Hurl. destruct Hinv as (_ & (Hlen & Hflag & Huniq) & _).
  split; [split|].
  - intros Hf. destruct (Hup Hf) as (tid & [n cfg [|f k]|res] & Ht & Hw); try done.
    pose proof (Hlen _ _ _ _ Ht) as Hk.
    destruct k; [|simpl in Hk; lia].
    exists tid, n, cfg, f. split; [done|]. by eapply Hurl.
  - intros (tid & n & cfg & f & Ht & _). by eapply Hflag.
  - intros. by eapply Huniq.
Qed.

(** The two calls answered 401 of the sample run: the first one waits. *)
Lemma flag_tracks_the_refresh_witness :
  (∃ tid n cfg f, tasks bothUnauthorized !! tid = Some (InFlight n cfg [f])
                  ∧ url cfg = REFRESH)
  ∧ isRefreshing bothSettled = false.
Proof.
  destruct (flag_tracks_the_refresh (Some "old")
              [Call getSessions; Call getDocuments;
               Deliver 0 (Replied unauthorized); Deliver 1 (Replied unauthorized)])
    as [[H _] _].
  split; [apply H; reflexivity | reflexivity].
Defined.

(** *** What an answer does to the store and to the location *)

Lemma reject_store tid e f st :
  let st' := reject tid e [f] st in
  (is401 e = true ∧ _accessToken st' = None
     ∧ navigations st' = navigations st ++ [LOGIN_PAGE])
  ∨ (is401 e = false ∧ _accessToken st' = _accessToken st
     ∧ navigations st' = navigations st).
Proof. simpl. destruct (is401 e); [by left | by right]. Qed.



(** *** A refresh that succeeds *)

(** X6: a request not yet marked is answered 401 while no refresh is
    going on, and the refresh request is answered 2xx with a non-empty
    [access_token].  Then the token is in the store, [isRefreshing] is down,
    nothing was navigated, and the request is on the wire again with the
    same url, method and body, marked, and with the new token as bearer; a
    2xx answer to this replay reaches the caller as it is. *)
Theorem renewed_token_is_stored_before_the_replay :
  ∀ st tid n cfg r0 r1 t,
    tasks st !! tid = Some (InFlight n cfg []) → _retry cfg = false →
    isRefreshing st = false →
    status r0 = 401 → ok2xx r1 = true → access_token r1 = Some t → t ≠ "" →
    let st' := run [Deliver tid (Replied r0); Deliver tid (Replied r1)] st in
    let replay := mkConfig (url cfg) (method cfg) (data cfg)
                           (Some ("Bearer " +:+ t)) true in
    getAccessToken st' = Some t
    ∧ isRefreshing st' = false
    ∧ navigations st' = navigations st
    ∧ tasks st' !! tid = Some (InFlight (S n) replay [])
    ∧ wire st'
      = wire st
        ++ [mkDispatch tid 1 1 (requestInterceptor (getAccessToken st) refreshRequest);
            mkDispatch tid 0 (S n) replay]
    ∧ ∀ r2, ok2xx r2 = true →
        outcome tid (deliver tid (Replied r2) st') = Some (Resolved r2).
Proof.
  intros st tid n cfg r0 r1 t Ht Hr Hf H0 H1 Hat Hne. simpl.
  rewrite (first_401 _ _ _ _ _ Ht Hr Hf H0).
  rewrite (deliver_eq _ _ _ _ _ _ (tasks_send _ _ _ _ _)).
  assert (Htr : truthy (Some t) = true).
  { unfold truthy. by destruct (String.eqb_spec t ""). }
  rewrite H1. unfold resolve. cbv zeta. rewrite Hat, Htr.
  unfold send at 1.
  cbn [getAccessToken set_isRefreshing setAccessToken set_accessToken _accessToken].
  cbv zeta. simpl.
  assert (Heq : (t =? "")%string = false) by (by apply String.eqb_neq).
  rewrite lookup_insert_eq, !Heq. simpl.
  do 4 (split; [reflexivity|]). split; [by rewrite <- app_assoc|].
  intros r2 H2. unfold deliver; simpl. rewrite lookup_insert_eq, H2.
  unfold outcome; simpl. by rewrite lookup_insert_eq.
Qed.

(** The call of [GET /sessions] made with the token ["old"]: its 401, then the
    renewal. *)
Lemma renewed_token_is_stored_before_the_replay_witness :
  let st' := run [Deliver 0 (Replied unauthorized); Deliver 0 (Replied renewed)] oneCall in
  getAccessToken st' = Some "new"
  ∧ tasks st' !! 0
    = Some (InFlight 2 (mkConfig "/sessions" GET None (Some "Bearer new") true) []).
Proof.
  destruct (renewed_token_is_stored_before_the_replay oneCall 0 1
              (mkConfig "/sessions" GET None (Some "Bearer old") false)
              unauthorized renewed "new"
              eq_refl eq_refl eq_refl eq_refl eq_refl eq_refl)
    as (H1 & _ & _ & H4 & _); [discriminate|].
  split; assumption.
Defined.

(** *** Runs without a 401 *)

Lemma idle_step st ev :
  inv st → idle st → is_unauthorized ev = false →
  idle (step st ev)
  ∧ navigations (step st ev) = navigations st
  ∧ getAccessToken (step st ev)
    = match ev with StoreToken t => t | _ => getAccessToken st end
  ∧ ∃ new, wire (step st ev) = wire st ++ new
           ∧ length new = (if is_call ev then 1 else 0)
           ∧ Forall (λ d, d_depth d = 0 ∧ d_attempt d = 1) new.
Proof.
  intros Hinv [Hf Hw] Hev. destruct ev as [cfg|tid o|token]; simpl.
  - split; [split|]; simpl; [done| |].
    + intros tid t. unfold call, send; simpl.
      destruct (decide (tid = nextId st)) as [->|Hne].
      * rewrite lookup_insert_eq. by intros [= <-].
      * rewrite lookup_insert_ne by done. apply Hw.
    + repeat split. eexists. split; [reflexivity|]. split; [done|].
      by repeat constructor.
  - assert (Hsame : deliver tid o st = st
              ∨ ∃ res, deliver tid o st = set_task tid (Settled res) st).
    { unfold deliver. destruct (tasks st !! tid) as [[n cfg k|res]|] eqn:Ht;
        [|by left..].
      right. pose proof (Hw _ _ Ht) as Hk. destruct k; [|done].
      assert (Herr : ∀ resp, is401 (mkError cfg resp) = false →
                ∃ res, responseError tid n (mkError cfg resp) [] st
                       = set_task tid (Settled res) st).
      { intros resp H. unfold responseError. rewrite H. simpl. by eexists. }
      destruct o as [r|].
      - destruct (ok2xx r); [by eexists|]. apply Herr. by unfold is401.
      - by apply Herr. }
    destruct Hsame as [->|[res ->]].
    + repeat split; try done. exists []. rewrite app_nil_r. by repeat split.
    + split; [split; [done|]|].
      * intros tid' t. simpl. destruct (decide (tid' = tid)) as [->|Hne].
        -- rewrite lookup_insert_eq. by intros [= <-].
        -- rewrite lookup_insert_ne by done. apply Hw.
      * repeat split. exists []. simpl. rewrite app_nil_r. by repeat split.
  - repeat split; try done. exists []. rewrite app_nil_r. by repeat split.
Qed.

Lemma idle_run evs st :
  inv st → idle st → Forall (λ ev, is_unauthorized ev = false) evs →
  isRefreshing (run evs st) = false
  ∧ navigations (run evs st) = navigations st
  ∧ getAccessToken (run evs st) = stored (getAccessToken st) evs
  ∧ ∃ new, wire (run evs st) = wire st ++ new
           ∧ length new = calls evs
           ∧ Forall (λ d, d_depth d = 0 ∧ d_attempt d = 1) new.
Proof.
  revert st. induction evs as [|ev evs IH]; intros st Hinv Hidle Hevs.
  - simpl. repeat split; [apply Hidle|]. exists []. by rewrite app_nil_r.
  - apply Forall_cons in Hevs as [Hev Hevs].
    destruct (idle_step st ev Hinv Hidle Hev) as (Hidle' & Hn & Htok & new1 & Hw1 & Hl1 & Hf1).
    destruct (IH _ (inv_step _ ev Hinv) Hidle' Hevs) as (Hf & Hn' & Htok' & new2 & Hw2 & Hl2 & Hf2).
    simpl. repeat split.
    + done.
    + by rewrite Hn', Hn.
    + rewrite Htok', Htok. unfold stored. simpl. by destruct ev.
    + exists (new1 ++ new2). rewrite Hw2, Hw1, <- app_assoc. split; [done|].
      split; [|by apply Forall_app].
      rewrite length_app, Hl1, Hl2. unfold calls. simpl. by destruct (is_call ev).
Qed.

(** X7: in a run from the initial state in which no answer has status
    401, the pipeline does nothing of its own: the wire holds one dispatch
    per call of the application, each a first dispatch of the call's own
    request, nothing is refreshed or navigated, and the credential store
    holds what the application last wrote. *)
Theorem without_401_nothing_is_refreshed :
  ∀ token evs,
    Forall (λ ev, is_unauthorized ev = false) evs →
    let st := run evs (init token) in
    length (wire st) = calls evs
    ∧ Forall (λ d, d_depth d = 0 ∧ d_attempt d = 1) (wire st)
    ∧ isRefreshing st = false
    ∧ navigations st = []
    ∧ getAccessToken st = stored token evs.
Proof.
  intros token evs Hevs st.
  destruct (idle_run evs (init token) (inv_init token)) as (Hf & Hn & Htok & new & Hw & Hl & Hall);
    [split; [done|]; intros tid t; simpl; by rewrite lookup_empty | done |].
  fold st in Hf, Hn, Htok, Hw. simpl in Hw. subst st. rewrite Hw.
  repeat split; done.
Qed.

(** Two calls, a 503, a 200 and a login in between. *)
Lemma without_401_nothing_is_refreshed_witness :
  let st := run [Call getSessions; Deliver 0 (Replied unavailable);
                 StoreToken (Some "fresh"); Call getDocuments;
                 Deliver 1 (Replied sessionsPage)] (init (Some "old")) in
  length (wire st) = 2 ∧ navigations st = [] ∧ getAccessToken st = Some "fresh".
Proof.
  destruct (without_401_nothing_is_refreshed (Some "old")
              [Call getSessions; Deliver 0 (Replied unavailable);
               StoreToken (Some "fresh"); Call getDocuments;
               Deliver 1 (Replied sessionsPage)])
    as (H1 & _ & _ & H4 & H5); [by repeat constructor|].
  repeat split; assumption.
Defined.

End ApiExtra.

(** * Further properties of the entity stores *)

Module ChatExtra.
Import Chat ChatMore ChatProofs.

(** X8: for every operation of the three stores and whatever the
    network answers, [isLoading] is up and the previous [error] is cleared
    at the moment each call is issued, and [isLoading] is down when the
    operation is over. *)
Theorem loading_flag_brackets_the_call :
  ∀ (net : Oracle) (s : useSession.State) (d : useDocuments.State) (q : useQuery.State)
    (title query sessionId documentId : string) (description : option string)
    (clock : Clock) (arrival : Arrival),
    let session_ok {R} (p : Prog useSession.State R) :=
      let r := run p net s in
      useSession.isLoading (final r) = false
      ∧ issued r ≠ []
      ∧ Forall (λ i, useSession.isLoading (snapshot i) = true
                     ∧ useSession.error (snapshot i) = None) (issued r) in
    let documents_ok {R} (p : Prog useDocuments.State R) :=
      let r := run p net d in
      useDocuments.isLoading (final r) = false
      ∧ issued r ≠ []
      ∧ Forall (λ i, useDocuments.isLoading (snapshot i) = true
                     ∧ useDocuments.error (snapshot i) = None) (issued r) in
    session_ok useSession.fetchSessions
    ∧ session_ok (useSession.createSession title description)
    ∧ session_ok (useSession.loadSession arrival sessionId)
    ∧ session_ok (useSession.deleteSession s sessionId)
    ∧ documents_ok (useDocuments.fetchDocuments sessionId)
    ∧ documents_ok (useDocuments.deleteDocument documentId)
    ∧ (let r := run (useQuery.askQuery clock sessionId query) net q in
       useQuery.isLoading (final r) = false
       ∧ issued r ≠ []
       ∧ Forall (λ i, useQuery.isLoading (snapshot i) = true
                      ∧ useQuery.error (snapshot i) = None) (issued r)).
Proof.
  intros net s d q title query sessionId documentId description clock arrival.
  destruct arrival; unfold run; simpl.
  all: repeat split.
  all: repeat match goal with
              | |- context [match ?x with Ok _ => _ | Err _ => _ end] => destruct x; simpl
              | |- context [useSession.isCurrent ?c ?i] =>
                  destruct (useSession.isCurrent c i); simpl
              end;
       try done; by repeat constructor.
Qed.


(** X9: [loadSession] issues both reads in every case, and takes the
    session all or nothing.  When both reads succeed the selection and the
    messages are replaced together, no error is recorded and both are
    returned.  When a read fails the selection, the messages and the list of
    sessions are as before, and the rejection is recorded and thrown: that of
    the read that failed, and when both fail that of the read whose answer
    came first. *)
Theorem load_session_all_or_nothing :
  ∀ (net : Oracle) (s : useSession.State) (sessionId : string) (arrival : Arrival),
    let r := run (useSession.loadSession arrival sessionId) net s in
    let rejected := λ err,
      useSession.currentSession (final r) = useSession.currentSession s
      ∧ useSession.messages (final r) = useSession.messages s
      ∧ useSession.error (final r) = Some (errorMessage "Failed to load session" err)
      ∧ completion r = Threw err in
    map request (issued r)
      = [existT _ (GetSession sessionId); existT _ (ListMessages sessionId)]
    ∧ useSession.sessions (final r) = useSession.sessions s
    ∧ match net 0 _ (GetSession sessionId), net 1 _ (ListMessages sessionId) with
      | Ok sessionData, Ok loaded =>
          useSession.currentSession (final r) = Some sessionData
          ∧ useSession.messages (final r) = default [] loaded
          ∧ useSession.error (final r) = None
          ∧ completion r = Returned (sessionData, default [] loaded)
      | Err err, Ok _ => rejected err
      | Ok _, Err err => rejected err
      | Err err, Err err' =>
          match arrival with
          | InOrder => rejected err
          | Reversed => rejected err'
          end
      end.
Proof.
  intros net s sessionId arrival. unfold run. simpl.
  destruct (net 0 _ (GetSession sessionId)) as [sessionData|e0];
    destruct (net 1 _ (ListMessages sessionId)) as [loaded|e1]; simpl;
    try destruct arrival; simpl; by repeat split.
Qed.

(** Both reads fail and the answer for the messages comes first: its
    [detail] is what the store shows; in the other order it is the one of the
    session read. *)
Lemma load_session_all_or_nothing_witness :
  useSession.error
    (final (run (useSession.loadSession Reversed "s1") readsFail (ChatPage.session thesisPage)))
  = Some "Messages unavailable"
  ∧ useSession.error
      (final (run (useSession.loadSession InOrder "s1") readsFail
                  (ChatPage.session thesisPage)))
    = Some "Not your session".
Proof.
  split.
  - destruct (load_session_all_or_nothing readsFail (ChatPage.session thesisPage) "s1"
                Reversed) as (_ & _ & H).
    simpl in H. destruct H as (_ & _ & H & _). exact H.
  - destruct (load_session_all_or_nothing readsFail (ChatPage.session thesisPage) "s1"
                InOrder) as (_ & _ & H).
    simpl in H. destruct H as (_ & _ & H & _). exact H.
Defined.

(** X10: whatever the network does, [handleDeleteSession] issues the
    delete call and then the list call, does not throw, and ends with the
    toast ["Session deleted successfully"]: neither [deleteSession] nor
    [fetchSessions] throws, so the failure toast of the handler is never
    shown.  After a failed delete the session is still in the list the client
    held, and the error the store recorded is what [fetchSessions] leaves:
    none when the list call succeeds. *)
Theorem delete_handler_always_reports_success :
  ∀ (net : Oracle) (pg : ChatPage.State) (sessionId : string),
    let r := run (ChatPage.handleDeleteSession pg sessionId) net pg in
    map request (issued r) = [existT _ (DeleteSession sessionId); existT _ ListSessions]
    ∧ completion r = Returned tt
    ∧ ChatPage.toast (final r)
      = Some (ChatPage.mkToast "Session deleted successfully" ChatPage.ToastSuccess)
    ∧ ∀ err, net 0 _ (DeleteSession sessionId) = Err err →
        useSession.currentSession (ChatPage.session (final r))
          = useSession.currentSession (ChatPage.session pg)
        ∧ useSession.messages (ChatPage.session (final r))
          = useSession.messages (ChatPage.session pg)
        ∧ match net 1 _ ListSessions with
          | Ok listed =>
              useSession.sessions (ChatPage.session (final r)) = default [] listed
              ∧ useSession.error (ChatPage.session (final r)) = None
          | Err err' =>
              useSession.sessions (ChatPage.session (final r))
                = useSession.sessions (ChatPage.session pg)
              ∧ useSession.error (ChatPage.session (final r))
                = Some (errorMessage "Failed to fetch sessions" err')
          end.
Proof.
  intros net pg sessionId. unfold run, ChatPage.handleDeleteSession. simpl.
  destruct (net 0 _ (DeleteSession sessionId)) as [[]|e0]; simpl;
    [destruct (useSession.isCurrent _ sessionId); simpl|];
    destruct (net 1 _ ListSessions) as [listed|e1]; simpl;
    destruct (ChatPage.isSelected _ sessionId); simpl;
    repeat split; try reflexivity; try discriminate;
    by intros err [= <-].
Qed.

(** The delete call is refused by the server, the list call succeeds. *)
Lemma delete_handler_always_reports_success_witness :
  let refused : Oracle := λ i A rq,
    match rq in Endpoint A return Result A with
    | DeleteSession _ => Err forbidden
    | other => server i _ other
    end in
  let r := run (ChatPage.handleDeleteSession thesisPage "s1") refused thesisPage in
  useSession.currentSession (ChatPage.session (final r)) = Some thesis
  ∧ useSession.error (ChatPage.session (final r)) = None
  ∧ ChatPage.toast (final r)
    = Some (ChatPage.mkToast "Session deleted successfully" ChatPage.ToastSuccess).
Proof.
  intros refused r.
  destruct (delete_handler_always_reports_success refused thesisPage "s1")
    as (_ & _ & Htoast & Herr).
  destruct (Herr forbidden eq_refl) as (Hcur & _ & Hlist).
  simpl in Hlist. destruct Hlist as [_ Hnone].
  repeat split; assumption.
Defined.

(** X11: [handleCreateSession] does not throw.  It navigates to the new
    session exactly when the create call succeeds; when the call fails the
    location, the list, the selection and the messages are as before and the
    error is recorded. *)
Theorem create_handler_navigates_on_success_only :
  ∀ (net : Oracle) (pg : ChatPage.State) (name : string) (description : option string),
    let r := run (ChatPage.handleCreateSession name description) net pg in
    let body := mkSessionCreate name (orNull description) in
    completion r = Returned tt
    ∧ map request (issued r) = [existT _ (CreateSession body)]
    ∧ match net 0 _ (CreateSession body) with
      | Ok newSession =>
          ChatPage.location (final r) = "/chat/" +:+ session_id newSession
          ∧ useSession.messages (ChatPage.session (final r)) = []
          ∧ useSession.error (ChatPage.session (final r)) = None
      | Err err =>
          ChatPage.location (final r) = ChatPage.location pg
          ∧ useSession.sessions (ChatPage.session (final r))
            = useSession.sessions (ChatPage.session pg)
          ∧ useSession.currentSession (ChatPage.session (final r))
            = useSession.currentSession (ChatPage.session pg)
          ∧ useSession.messages (ChatPage.session (final r))
            = useSession.messages (ChatPage.session pg)
          ∧ useSession.error (ChatPage.session (final r))
            = Some (errorMessage "Failed to create session" err)
      end.
Proof.
  intros net pg name description.
  assert (Hbody : orNull (orNull description) = orNull description).
  { unfold orNull. destruct description as [d|]; [|done].
    destruct (String.eqb_spec d ""); simpl; [done|].
    by destruct (String.eqb_spec d ""). }
  unfold run, ChatPage.handleCreateSession, useSession.createSession.
  rewrite Hbody. generalize (orNull description). intros d. simpl.
  destruct (net 0 _ (CreateSession (mkSessionCreate name d))); simpl; by repeat split.
Qed.



(** X13: the Send button with an empty or white-space-only text issues no
    call, adds no message and keeps the text.  With any other text and a
    session selected, one query call is issued for the text exactly as
    typed, the user message carries that text, and the input is empty
    afterwards, whether the call succeeds or fails. *)
Theorem send_button_skips_blank_text :
  ∀ (net : Oracle) (qp : QueryPage) (clock clock' : Clock),
    let text := QueryInput.query (input qp) in
    let r := run (clickSend qp clock clock') net qp in
    (whitespaceOnly text = true → issued r = [] ∧ final r = qp)
    ∧ (whitespaceOnly text = false →
       ∀ current,
         useSession.currentSession (ChatPage.session (page qp)) = Some current →
         map request (issued r)
           = [existT _ (AskQuery (session_id current) (mkQueryRequest text false true))]
         ∧ (∃ rest,
              useSession.messages (ChatPage.session (page (final r)))
              = useSession.messages (ChatPage.session (page qp))
                ++ mkMessage (now clock) (session_id current) user text None
                             (toISOString clock) :: rest)
         ∧ QueryInput.query (input (final r)) = "").
Proof.
  intros net qp clock clock' text r. subst r.
  unfold clickSend, QueryInput.handleSubmit. fold text. split.
  - intros Hblank. apply trim_blank in Hblank. rewrite Hblank. simpl.
    split; [done|]. by destruct qp.
  - intros Htext current Hcur.
    destruct (trim text) as [|u rest] eqn:Hempty.
    { apply trim_blank in Hempty. congruence. }
    cbn [isEmpty].
    unfold run, ChatPage.handleAskQuery. rewrite Hcur. simpl.
    destruct (net 0 _ (AskQuery (session_id current) (mkQueryRequest text false true)));
      simpl; (split; [done|]); (split; [|done]).
    + eexists. by rewrite <- app_assoc.
    + by eexists.
Qed.

(** Three spaces, an ideographic space with a no-break space, and a
    question, on the sample page. *)
Lemma send_button_skips_blank_text_witness :
  final (run (clickSend (typed "   ") noon noon) server (typed "   ")) = typed "   "
  ∧ issued (run (clickSend (typed wideBlank) noon noon) server (typed wideBlank)) = []
  ∧ QueryInput.query
      (input (final (run (clickSend (typed " Why? ") noon noon) server (typed " Why? "))))
    = "".
Proof.
  split; [|split].
  - destruct (send_button_skips_blank_text server (typed "   ") noon noon) as [H _].
    by destruct (H eq_refl).
  - destruct (send_button_skips_blank_text server (typed wideBlank) noon noon) as [H _].
    by destruct (H eq_refl).
  - destruct (send_button_skips_blank_text server (typed " Why? ") noon noon) as [_ H].
    by destruct (H eq_refl thesis eq_refl) as (_ & _ & ->).
Defined.

End ChatExtra.

(** * Properties of the form checks *)

Module RegexProofs.
Import Regex.

(** *** Reading a derivation backwards *)

Lemma Matches_Seq_inv r1 r2 s :
  Matches (Seq r1 r2) s → ∃ s1 s2, s = s1 ++ s2 ∧ Matches r1 s1 ∧ Matches r2 s2.
Proof. inversion 1; subst; eauto. Qed.

Lemma Matches_Class_inv p s : Matches (Class p) s → ∃ c, s = [c] ∧ p c = true.
Proof. inversion 1; subst; eauto. Qed.

Lemma Matches_Alt_inv r1 r2 s : Matches (Alt r1 r2) s → Matches r1 s ∨ Matches r2 s.
Proof. inversion 1; subst; eauto. Qed.

Lemma Matches_Empty_inv s : Matches Empty s → s = [].
Proof. by inversion 1. Qed.

Lemma Matches_Never_inv s : ¬ Matches Never s.
Proof. inversion 1. Qed.

Lemma Matches_Seq_intro r1 r2 s s1 s2 :
  s = s1 ++ s2 → Matches r1 s1 → Matches r2 s2 → Matches (Seq r1 r2) s.
Proof. intros ->. apply MSeq. Qed.

Lemma Matches_Star_intro r s s1 s2 :
  s = s1 ++ s2 → Matches r s1 → Matches (Star r) s2 → Matches (Star r) s.
Proof. intros ->. apply MStarApp. Qed.

Lemma nullable_Matches r : nullable r = true ↔ Matches r [].
Proof.
  induction r as [| |p|r1 IH1 r2 IH2|r1 IH1 r2 IH2|r IH]; simpl.
  - split; [done|]. by intros ?%Matches_Never_inv.
  - split; [constructor|done].
  - split; [done|]. by intros (c & ? & _)%Matches_Class_inv.
  - rewrite andb_true_iff, IH1, IH2. split.
    + intros [H1 H2]. by apply (Matches_Seq_intro _ _ _ [] []).
    + intros (s1 & s2 & Heq & H1 & H2)%Matches_Seq_inv.
      symmetry in Heq. apply app_eq_nil in Heq as [-> ->]. done.
  - rewrite orb_true_iff, IH1, IH2. split.
    + intros [H|H]; [by apply MAltL | by apply MAltR].
    + apply Matches_Alt_inv.
  - split; [constructor|done].
Qed.

(** A non-empty string of [r*] starts with a non-empty string of [r]. *)
Lemma Matches_Star_cons r c s :
  Matches (Star r) (c :: s) →
  ∃ s1 s2, s = s1 ++ s2 ∧ Matches r (c :: s1) ∧ Matches (Star r) s2.
Proof.
  intros H. remember (Star r) as r' eqn:Er. remember (c :: s) as w eqn:Ew.
  revert Er Ew. induction H as [| | | | | |r0 s1 s2 H1 _ H2 IH2]; try done.
  intros [= ->] Ew. destruct s1 as [|c1 s1].
  - simpl in Ew. by apply IH2.
  - simpl in Ew. injection Ew as -> <-. by exists s1, s2.
Qed.

Lemma deriv_Matches c r s : Matches (deriv c r) s ↔ Matches r (c :: s).
Proof.
  revert s. induction r as [| |p|r1 IH1 r2 IH2|r1 IH1 r2 IH2|r IH]; intros s; simpl.
  - split; by intros ?%Matches_Never_inv.
  - split; [by intros ?%Matches_Never_inv | by intros ?%Matches_Empty_inv].
  - destruct (p c) eqn:Hp.
    + split.
      * intros ->%Matches_Empty_inv. by constructor.
      * intros (c' & [= -> ->] & _)%Matches_Class_inv. constructor.
    + split; [by intros ?%Matches_Never_inv|].
      intros (c' & [= -> ->] & ?)%Matches_Class_inv. congruence.
  - assert (Hseq : Matches (Seq (deriv c r1) r2) s
                 ↔ ∃ s1 s2, s = s1 ++ s2 ∧ Matches r1 (c :: s1) ∧ Matches r2 s2).
    { split.
      - intros (s1 & s2 & -> & H1 & H2)%Matches_Seq_inv.
        exists s1, s2. by rewrite <- IH1.
      - intros (s1 & s2 & -> & H1 & H2). constructor; [by apply IH1|done]. }
    assert (Hall : Matches (Seq r1 r2) (c :: s)
                 ↔ (∃ s1 s2, s = s1 ++ s2 ∧ Matches r1 (c :: s1) ∧ Matches r2 s2)
                   ∨ (Matches r1 [] ∧ Matches r2 (c :: s))).
    { split.
      - intros (s1 & s2 & Heq & H1 & H2)%Matches_Seq_inv.
        destruct s1 as [|c1 s1]; simpl in Heq.
        + right. by subst.
        + injection Heq as -> ->. left. by exists s1, s2.
      - intros [(s1 & s2 & -> & H1 & H2)|[H1 H2]].
        + by apply (Matches_Seq_intro _ _ _ (c :: s1) s2).
        + by apply (Matches_Seq_intro _ _ _ [] (c :: s)). }
    rewrite Hall. destruct (nullable r1) eqn:Hn.
    + apply nullable_Matches in Hn. split.
      * intros [H|H]%Matches_Alt_inv; [left; by apply Hseq | right; by rewrite <- IH2].
      * intros [H|[_ H]]; [apply MAltL; by apply Hseq | apply MAltR; by apply IH2].
    + rewrite Hseq. split; [by left|]. intros [H|[H _]]; [done|].
      apply nullable_Matches in H. congruence.
  - split.
    + intros [H|H]%Matches_Alt_inv; [apply MAltL; by apply IH1 | apply MAltR; by apply IH2].
    + intros [H|H]%Matches_Alt_inv; [apply MAltL; by apply IH1 | apply MAltR; by apply IH2].
  - split.
    + intros (s1 & s2 & -> & H1 & H2)%Matches_Seq_inv.
      apply (Matches_Star_intro _ _ (c :: s1) s2); [done|by apply IH|done].
    + intros (s1 & s2 & -> & H1 & H2)%Matches_Star_cons.
      constructor; [by apply IH|done].
Qed.

(** The matcher decides the strings of the expression. *)
Lemma matches_Matches r s : matches r s = true ↔ Matches r s.
Proof.
  revert r. induction s as [|c s IH]; intros r; simpl.
  - apply nullable_Matches.
  - rewrite IH. apply deriv_Matches.
Qed.

Lemma Matches_Star_Class p s : Matches (Star (Class p)) s ↔ Forall (λ c, p c = true) s.
Proof.
  split.
  - intros H. remember (Star (Class p)) as r eqn:Er. revert Er.
    induction H as [| | | | | |r0 s1 s2 H1 _ H2 IH2]; try done.
    intros [= ->]. apply Matches_Class_inv in H1 as (c & -> & Hc).
    constructor; [done|]. by apply IH2.
  - induction 1 as [|c s Hc _ IH]; [constructor|].
    apply (Matches_Star_intro _ _ [c] s); [done|by constructor|done].
Qed.

Lemma Matches_Plus_Class p s :
  Matches (Plus (Class p)) s ↔ s ≠ [] ∧ Forall (λ c, p c = true) s.
Proof.
  unfold Plus. split.
  - intros (s1 & s2 & -> & (c & -> & Hc)%Matches_Class_inv & H2)%Matches_Seq_inv.
    split; [done|]. constructor; [done|]. by apply Matches_Star_Class.
  - intros [Hne Hall]. destruct s as [|c s]; [done|].
    apply Forall_cons in Hall as [Hc Hall].
    apply (Matches_Seq_intro _ _ _ [c] s); [done | by constructor | by apply Matches_Star_Class].
Qed.

Lemma Matches_anything s : Matches anything s.
Proof. apply Matches_Star_Class. by apply Forall_forall. Qed.

Lemma test_Class p s :
  test (Class p) s = true ↔ ∃ c, c ∈ Chat.units s ∧ p c = true.
Proof.
  unfold test, testWhole. rewrite matches_Matches. split.
  - intros (s1 & s2 & Heq & _ & (s3 & s4 & -> & (c & -> & Hc)%Matches_Class_inv & _)
             %Matches_Seq_inv)%Matches_Seq_inv.
    exists c. split; [|done]. rewrite Heq.
    apply elem_of_app. right. apply elem_of_app. left.
    by apply list_elem_of_singleton.
  - intros (c & Hin & Hp). apply list_elem_of_split in Hin as (l1 & l2 & ->).
    apply (Matches_Seq_intro _ _ _ l1 (c :: l2)); [done | apply Matches_anything|].
    apply (Matches_Seq_intro _ _ _ [c] l2); [done | by constructor | apply Matches_anything].
Qed.

End RegexProofs.

(** * Properties of the form checks of the login and signup pages *)

Module FormProofs.
Import Regex RegexProofs Auth.

Lemma forallb_Forall (p : Chat.CodeUnit → bool) l :
  forallb p l = true ↔ Forall (λ c, p c = true) l.
Proof. rewrite forallb_forall, Forall_forall. by setoid_rewrite list_elem_of_In. Qed.

Lemma test_Class_some p s : test (Class p) s = some p s.
Proof.
  apply eq_true_iff_eq. rewrite test_Class. unfold some.
  rewrite existsb_exists. by setoid_rewrite list_elem_of_In.
Qed.

(** X14: the texts the e-mail pattern [/^[^\s@]+@[^\s@]+\.[^\s@]+$/] accepts
    are those whose code units are [a @ b . c] with [a], [b] and [c] not
    empty and free of white space and of [@]: one [@], a dot after it that
    is neither next to it nor last, and no white space anywhere. *)
Theorem email_pattern_shape :
  ∀ s : string,
    testWhole emailPattern s = true ↔
    ∃ a b c : Chat.Text,
      Chat.units s = a ++ AT :: b ++ DOT :: c
      ∧ a ≠ [] ∧ b ≠ [] ∧ c ≠ []
      ∧ forallb notSpaceNorAt a = true
      ∧ forallb notSpaceNorAt b = true
      ∧ forallb notSpaceNorAt c = true.
Proof.
  intros s. unfold testWhole, emailPattern. rewrite matches_Matches. split.
  - intros (a & l1 & Hs & [Ha Hfa]%Matches_Plus_Class
            & (lat & l2 & -> & (cat & -> & Hat)%Matches_Class_inv
               & (b & l3 & -> & [Hb Hfb]%Matches_Plus_Class
                  & (ld & c & -> & (cd & -> & Hd)%Matches_Class_inv
                     & [Hc Hfc]%Matches_Plus_Class)%Matches_Seq_inv)%Matches_Seq_inv)
               %Matches_Seq_inv)%Matches_Seq_inv.
    apply N.eqb_eq in Hat, Hd. subst cat cd.
    exists a, b, c. rewrite !forallb_Forall. by rewrite Hs.
  - intros (a & b & c & -> & Ha & Hb & Hc & Hfa & Hfb & Hfc).
    apply forallb_Forall in Hfa, Hfb, Hfc.
    eapply Matches_Seq_intro; [reflexivity | by apply Matches_Plus_Class |].
    apply (Matches_Seq_intro _ _ _ [AT] (b ++ DOT :: c)); [done | by constructor |].
    eapply Matches_Seq_intro; [reflexivity | by apply Matches_Plus_Class |].
    apply (Matches_Seq_intro _ _ _ [DOT] c); [done | by constructor |].
    by apply Matches_Plus_Class.
Qed.

(** An address in Latin letters, one in Japanese, and one with an
    ideographic space in it. *)
Example email_pattern_samples :
  testWhole emailPattern "a@b.com" = true
  ∧ testWhole emailPattern "名前@例え.jp" = true
  ∧ testWhole emailPattern "a　b@c.d" = false
  ∧ testWhole emailPattern "a@b" = false.
Proof. repeat split; reflexivity. Qed.

Lemma email_check_empty (errors : gmap string string) e :
  (if String.eqb e ""
   then <["email" := "Email is required"]> errors
   else if negb (testWhole emailPattern e)
        then <["email" := "Invalid email format"]> errors
        else errors) = ∅
  ↔ errors = ∅ ∧ testWhole emailPattern e = true.
Proof.
  destruct (String.eqb_spec e "") as [->|_].
  - split; [by intros ?%insert_non_empty | by intros [_ ?]].
  - destruct (testWhole emailPattern e); simpl.
    + split; [done | by intros [? _]].
    + split; [by intros ?%insert_non_empty | by intros [_ ?]].
Qed.

(** X15: the login form passes its check exactly when the e-mail matches the
    pattern and the password has eight code units or more; an empty field is
    covered by both conditions. *)
Theorem login_form_check :
  ∀ form : LoginPage.State,
    LoginPage.validateForm form = ∅ ↔
    testWhole emailPattern (LoginPage.email form) = true
    ∧ 8 ≤ Chat.JS.length (LoginPage.password form).
Proof.
  intros form. unfold LoginPage.validateForm. cbv zeta.
  destruct (String.eqb_spec (LoginPage.password form) "") as [Hp|_].
  - rewrite Hp. split; [by intros ?%insert_non_empty|].
    intros [_ H]. vm_compute in H. lia.
  - destruct (Nat.ltb_spec (Chat.JS.length (LoginPage.password form)) 8).
    + split; [by intros ?%insert_non_empty | lia].
    + rewrite email_check_empty.
      split; [intros [_ ?]; split; [done|lia] | by intros [? _]].
Qed.

(** Eight letters pass; seven do not; four characters outside the basic
    plane are eight code units and pass. *)
Example login_form_samples :
  LoginPage.validateForm (LoginPage.mkState "a@b.com" "secret12" ∅) = ∅
  ∧ LoginPage.validateForm (LoginPage.mkState "a@b.com" "secret1" ∅)
    = {["password" := "Password must be at least 8 characters"]}
  ∧ Chat.JS.length "😀😀😀😀" = 8
  ∧ LoginPage.validateForm (LoginPage.mkState "a@b.com" "😀😀😀😀" ∅) = ∅.
Proof. repeat split; reflexivity. Qed.

(** X16: the signup form passes its check exactly when the e-mail matches
    the pattern, the password has eight code units or more with an
    upper-case letter, a lower-case letter and a digit among them, and the
    confirmation equals the password.  An e-mail and a password that pass it
    also pass the check of the login form. *)
Theorem signup_form_check :
  ∀ (form : SignupPage.State) (shown : gmap string string),
    (SignupPage.validateForm form = ∅ ↔
       testWhole emailPattern (SignupPage.email form) = true
       ∧ 8 ≤ Chat.JS.length (SignupPage.password form)
       ∧ some upperCase (SignupPage.password form) = true
       ∧ some lowerCase (SignupPage.password form) = true
       ∧ some digit (SignupPage.password form) = true
       ∧ SignupPage.confirmPassword form = SignupPage.password form)
    ∧ (SignupPage.validateForm form = ∅ →
       LoginPage.validateForm
         (LoginPage.mkState (SignupPage.email form) (SignupPage.password form) shown) = ∅).
Proof.
  intros form shown.
  assert (Hiff : SignupPage.validateForm form = ∅ ↔
            testWhole emailPattern (SignupPage.email form) = true
            ∧ 8 ≤ Chat.JS.length (SignupPage.password form)
            ∧ some upperCase (SignupPage.password form) = true
            ∧ some lowerCase (SignupPage.password form) = true
            ∧ some digit (SignupPage.password form) = true
            ∧ SignupPage.confirmPassword form = SignupPage.password form).
  { unfold SignupPage.validateForm. cbv zeta. rewrite !test_Class_some.
    destruct (String.eqb_spec (SignupPage.confirmPassword form) "") as [Hc|Hc].
    { split; [by intros ?%insert_non_empty|]. intros (_ & Hlen & _ & _ & _ & Heq).
      rewrite <- Heq, Hc in Hlen. vm_compute in Hlen. lia. }
    destruct (String.eqb_spec (SignupPage.password form) (SignupPage.confirmPassword form))
      as [Heq|Hne]; simpl.
    2:{ split; [by intros ?%insert_non_empty|]. intros (_ & _ & _ & _ & _ & Heq).
        congruence. }
    destruct (String.eqb_spec (SignupPage.password form) "") as [Hp|_].
    { congruence. }
    destruct (Nat.ltb_spec (Chat.JS.length (SignupPage.password form)) 8).
    { split; [by intros ?%insert_non_empty | lia]. }
    destruct (some upperCase _); simpl;
      [|split; [by intros ?%insert_non_empty | by intros (_ & _ & ? & ? & ? & _)]].
    destruct (some lowerCase _); simpl;
      [|split; [by intros ?%insert_non_empty | by intros (_ & _ & ? & ? & ? & _)]].
    destruct (some digit _); simpl;
      [|split; [by intros ?%insert_non_empty | by intros (_ & _ & ? & ? & ? & _)]].
    rewrite email_check_empty.
    split; [intros [_ ?]; repeat split; (done || lia) | by intros [? _]]. }
  split; [exact Hiff|].
  intros (He & Hlen & _)%Hiff.
  unfold LoginPage.validateForm. cbv zeta. simpl.
  destruct (String.eqb_spec (SignupPage.password form) "") as [Hp|_].
  { rewrite Hp in Hlen. vm_compute in Hlen. lia. }
  destruct (Nat.ltb_spec (Chat.JS.length (SignupPage.password form)) 8); [lia|].
  by apply email_check_empty.
Qed.

(** A password without a digit is refused at signup and accepted at login;
    accented capitals are not upper-case letters of [[A-Z]]. *)
Lemma signup_form_check_witness :
  LoginPage.validateForm (LoginPage.mkState "a@b.com" "Secret12" ∅) = ∅
  ∧ SignupPage.validateForm (SignupPage.mkState "a@b.com" "Secretive" "Secretive" ∅) ≠ ∅
  ∧ LoginPage.validateForm (LoginPage.mkState "a@b.com" "Secretive" ∅) = ∅
  ∧ SignupPage.validateForm (SignupPage.mkState "a@b.com" "École2024" "École2024" ∅)
    = {["password" := "Password must contain uppercase letter"]}.
Proof.
  split; [|split; [|split; reflexivity]].
  - apply (signup_form_check (SignupPage.mkState "a@b.com" "Secret12" "Secret12" ∅) ∅).
    reflexivity.
  - intros H.
    apply (signup_form_check (SignupPage.mkState "a@b.com" "Secretive" "Secretive" ∅) ∅)
      in H as (_ & _ & _ & _ & Hdigit & _).
    discriminate Hdigit.
Defined.

End FormProofs.

(** * Properties of authentication *)

Module AuthProofs.
Import Auth.

(** X17: submitting the login form never throws.  When the check of the form
    fails, no call is made, the errors of the check are shown and the
    provider and the hook are untouched.  When it passes, one login call is
    made with the e-mail and the password as typed; if it succeeds the user
    is set, the store takes the access token of the answer (none when the
    answer has none) and the page moves to ["/chat"]; if it fails the page
    stays, the user is as before and the hook shows the [detail] of the
    server or ["Login failed"].  The hook is never left loading. *)
Theorem login_submit :
  ∀ (net : Async.Oracle Endpoint) (app : App),
    let form := loginForm app in
    let rq := Login (mkCredentials (LoginPage.email form) (LoginPage.password form)) in
    let r := Async.run (submitLogin app) net app in
    Async.completion r = Chat.Returned tt
    ∧ (LoginPage.validateForm form ≠ ∅ →
         Async.issued r = []
         ∧ LoginPage.validationErrors (loginForm (Async.final r))
           = LoginPage.validateForm form
         ∧ auth (Async.final r) = auth app
         ∧ loginHook (Async.final r) = loginHook app)
    ∧ (LoginPage.validateForm form = ∅ →
         map Async.request (Async.issued r) = [existT _ rq]
         ∧ LoginPage.validationErrors (loginForm (Async.final r)) = ∅
         ∧ useLogin.isLoading (loginHook (Async.final r)) = false
         ∧ match net 0 _ rq with
           | Chat.Ok data =>
               AuthContext.user (auth (Async.final r))
                 = Some (mkUser (user_id data) (LoginPage.email form))
               ∧ AuthContext.accessToken (auth (Async.final r)) = accessTokenOf data
               ∧ AuthContext.location (auth (Async.final r)) = "/chat"
               ∧ useLogin.error (loginHook (Async.final r)) = None
           | Chat.Err e =>
               AuthContext.user (auth (Async.final r)) = AuthContext.user (auth app)
               ∧ AuthContext.location (auth (Async.final r))
                 = AuthContext.location (auth app)
               ∧ (∀ resp detail,
                    Api.response e = Some resp → Api.detail resp = Some detail →
                    detail ≠ "" →
                    useLogin.error (loginHook (Async.final r)) = Some detail)
               ∧ (Api.response e = None
                  ∨ (∃ resp, Api.response e = Some resp
                             ∧ (Api.detail resp = None ∨ Api.detail resp = Some "")) →
                  useLogin.error (loginHook (Async.final r)) = Some "Login failed")
           end).
Proof.
  intros net app form rq r. subst r rq.
  unfold submitLogin, LoginPage.handleSubmit. fold form. cbv zeta.
  destruct (decide (LoginPage.validateForm form = ∅)) as [Hok|Hbad].
  - rewrite bool_decide_eq_true_2 by done.
    unfold Async.run. simpl.
    destruct (net 0 _ (Login _)) as [data|e]; simpl; [by repeat split|].
    split; [reflexivity|]. split; [intros ?; contradiction|].
    intros _. do 5 (split; [reflexivity|]). unfold Chat.errorMessage. split.
    + intros resp detail -> -> Hne. by destruct (String.eqb_spec detail "").
    + by intros [->|(resp & -> & [->| ->])].
  - rewrite bool_decide_eq_false_2 by done.
    unfold Async.run. simpl. by repeat split.
Qed.

(** An address without a dot is stopped by the form; a well-formed one
    reaches the server and the page moves on; when the server refuses the
    credentials its [detail] is shown, and when no answer comes the fallback
    is. *)
Lemma login_submit_witness :
  Async.issued (Async.run (submitLogin (filled "a@b" "secret12")) accepting
                          (filled "a@b" "secret12")) = []
  ∧ AuthContext.location
      (auth (Async.final (Async.run (submitLogin (filled "a@b.com" "secret12")) accepting
                                    (filled "a@b.com" "secret12")))) = "/chat"
  ∧ useLogin.error
      (loginHook (Async.final (Async.run (submitLogin (filled "a@b.com" "secret12"))
                                         (failing badCredentials)
                                         (filled "a@b.com" "secret12"))))
    = Some "Invalid email or password"
  ∧ useLogin.error
      (loginHook (Async.final (Async.run (submitLogin (filled "a@b.com" "secret12"))
                                         (failing offline)
                                         (filled "a@b.com" "secret12"))))
    = Some "Login failed".
Proof.
  split; [|split; [|split]].
  - destruct (login_submit accepting (filled "a@b" "secret12")) as (_ & H & _).
    by destruct H as [-> _].
  - destruct (login_submit accepting (filled "a@b.com" "secret12")) as (_ & _ & H).
    destruct (H eq_refl) as (_ & _ & _ & H'). simpl in H'. by destruct H' as (_ & _ & -> & _).
  - destruct (login_submit (failing badCredentials) (filled "a@b.com" "secret12"))
      as (_ & _ & H).
    destruct (H eq_refl) as (_ & _ & _ & H'). simpl in H'.
    destruct H' as (_ & _ & Hdetail & _).
    apply (Hdetail (Api.mkResponse 400 (Some "Invalid email or password") None "")
                   "Invalid email or password" eq_refl eq_refl).
    discriminate.
  - destruct (login_submit (failing offline) (filled "a@b.com" "secret12")) as (_ & _ & H).
    destruct (H eq_refl) as (_ & _ & _ & H'). simpl in H'.
    destruct H' as (_ & _ & _ & Hfallback).
    apply Hfallback. by left.
Defined.

(** X18: submitting the signup form behaves as submitting the login form
    does, with the check of the signup form and the signup call: nothing is
    sent when the check fails, and the page moves to ["/chat"] exactly when
    the call succeeds. *)
Theorem signup_submit :
  ∀ (net : Async.Oracle Endpoint) (app : App),
    let form := signupForm app in
    let rq := Signup (mkCredentials (SignupPage.email form) (SignupPage.password form)) in
    let r := Async.run (submitSignup app) net app in
    Async.completion r = Chat.Returned tt
    ∧ (SignupPage.validateForm form ≠ ∅ →
         Async.issued r = []
         ∧ SignupPage.validationErrors (signupForm (Async.final r))
           = SignupPage.validateForm form
         ∧ auth (Async.final r) = auth app
         ∧ signupHook (Async.final r) = signupHook app)
    ∧ (SignupPage.validateForm form = ∅ →
         map Async.request (Async.issued r) = [existT _ rq]
         ∧ SignupPage.validationErrors (signupForm (Async.final r)) = ∅
         ∧ useSignup.isLoading (signupHook (Async.final r)) = false
         ∧ match net 0 _ rq with
           | Chat.Ok data =>
               AuthContext.user (auth (Async.final r))
                 = Some (mkUser (user_id data) (SignupPage.email form))
               ∧ AuthContext.accessToken (auth (Async.final r)) = accessTokenOf data
               ∧ AuthContext.location (auth (Async.final r)) = "/chat"
               ∧ useSignup.error (signupHook (Async.final r)) = None
           | Chat.Err e =>
               AuthContext.user (auth (Async.final r)) = AuthContext.user (auth app)
               ∧ AuthContext.location (auth (Async.final r))
                 = AuthContext.location (auth app)
               ∧ useSignup.error (signupHook (Async.final r))
                 = Some (Chat.errorMessage "Signup failed" e)
           end).
Proof.
  intros net app form rq r. subst r rq.
  unfold submitSignup, SignupPage.handleSubmit. fold form. cbv zeta.
  destruct (decide (SignupPage.validateForm form = ∅)) as [Hok|Hbad].
  - rewrite bool_decide_eq_true_2 by done.
    unfold Async.run. simpl.
    destruct (net 0 _ (Signup _)) as [data|e]; simpl; by repeat split.
  - rewrite bool_decide_eq_false_2 by done.
    unfold Async.run. simpl. by repeat split.
Qed.

(** A password without a digit is stopped by the form; when the server
    refuses a well-formed signup its [detail] is shown. *)
Lemma signup_submit_witness :
  Async.issued (Async.run (submitSignup (filled "a@b.com" "Secretive")) accepting
                          (filled "a@b.com" "Secretive")) = []
  ∧ useSignup.error
      (signupHook (Async.final (Async.run (submitSignup (filled "a@b.com" "Secret12"))
                                          (failing badCredentials)
                                          (filled "a@b.com" "Secret12"))))
    = Some "Invalid email or password".
Proof.
  split.
  - destruct (signup_submit accepting (filled "a@b.com" "Secretive")) as (_ & H & _).
    by destruct H as [-> _].
  - destruct (signup_submit (failing badCredentials) (filled "a@b.com" "Secret12"))
      as (_ & _ & H).
    destruct (H eq_refl) as (_ & _ & _ & H'). simpl in H'. by destruct H' as (_ & _ & ->).
Defined.

(** X19: [logout] signs out whatever the server says: it makes one logout
    call and then, whether the call succeeded or failed, the store and the
    token are cleared, the user is removed and the page moves to
    ["/login"].  A failure of the call is thrown on to the caller after
    that. *)
Theorem logout_always_signs_out :
  ∀ (net : Async.Oracle Endpoint) (s : AuthContext.State),
    let r := Async.run AuthContext.logout net s in
    map Async.request (Async.issued r) = [existT _ Logout]
    ∧ Async.final r = AuthContext.mkState None (AuthContext.isLoading s) None None "/login"
    ∧ AuthContext.isAuthenticated (Async.final r) = false
    ∧ Async.completion r
      = match net 0 _ Logout with
        | Chat.Ok _ => Chat.Returned tt
        | Chat.Err e => Chat.Threw e
        end.
Proof.
  intros net s. unfold Async.run. simpl.
  destruct (net 0 _ Logout) as [[]|e]; simpl; by repeat split.
Qed.



(** X21: the credential from login to logout.  After a successful login
    whose answer carries a non-empty access token [t], a call made through
    the pipeline leaves with [Bearer t], whatever header it came with; after
    [logout], also one whose call failed, a call leaves as it was made. *)
Theorem credential_from_login_to_logout :
  ∀ (net net' : Async.Oracle Endpoint) (s : AuthContext.State) (email password : string)
    (data : AuthResponse) (t : string) (st : Api.State) (cfg : Api.Config),
    net 0 _ (Login (mkCredentials email password)) = Chat.Ok data →
    accessTokenOf data = Some t → t ≠ "" →
    let s1 := Async.final (Async.run (AuthContext.login email password) net s) in
    let s2 := Async.final (Async.run AuthContext.logout net' s1) in
    let sent (token : option string) :=
      Api.wire (Api.run [Api.StoreToken token; Api.Call cfg] st) in
    sent (AuthContext.accessToken s1)
      = Api.wire st
        ++ [Api.mkDispatch (Api.nextId st) 0 1
              (Api.with_Authorization (Some ("Bearer " +:+ t)) cfg)]
    ∧ sent (AuthContext.accessToken s2)
      = Api.wire st ++ [Api.mkDispatch (Api.nextId st) 0 1 cfg].
Proof.
  intros net net' s email password data t st cfg Hnet Htok Hne.
  unfold Async.run. simpl. rewrite Hnet. simpl. rewrite Htok.
  destruct (net' 0 _ Logout) as [[]|e]; simpl;
    unfold Api.requestInterceptor, Api.truthy; simpl;
    by destruct (String.eqb_spec t "").
Qed.

Lemma credential_from_login_to_logout_witness :
  let s1 := Async.final (Async.run (AuthContext.login "a@b.com" "secret12") accepting
                                   (AuthContext.initial "/login")) in
  Api.wire (Api.run [Api.StoreToken (AuthContext.accessToken s1); Api.Call Api.getSessions]
                    (Api.init None))
  = [Api.mkDispatch 0 0 1
       (Api.mkConfig "/sessions" Api.GET None (Some "Bearer tok-1") false)].
Proof.
  destruct (credential_from_login_to_logout accepting (failing offline)
              (AuthContext.initial "/login") "a@b.com" "secret12" welcome "tok-1"
              (Api.init None) Api.getSessions eq_refl eq_refl) as [H _];
    [discriminate|].
  exact H.
Defined.

End AuthProofs.

(** * Properties of the document handlers *)

Module DocumentsProofs.
Import Documents.

(** X22: [handleUploadDocument] never throws.  With no session selected it
    makes no call and changes nothing.  With a session selected it uploads
    to that session, the form carrying the same session id as the path; when
    the upload fails nothing else is called, the list of documents is as
    before and the hook records the error; when it succeeds the list is read
    again for the session and is what that read returns: the document in the
    answer to the upload is not itself put in the list. *)
Theorem upload_handler :
  ∀ (net : Async.Oracle Endpoint) (pg : Page) (f : File),
    let r := Async.run (handleUploadDocument pg f) net pg in
    let docs x := Chat.ChatPage.docs (chat x) in
    Async.completion r = Chat.Returned tt
    ∧ (Chat.useSession.currentSession (Chat.ChatPage.session (chat pg)) = None →
         Async.issued r = [] ∧ Async.final r = pg)
    ∧ ∀ current,
        Chat.useSession.currentSession (Chat.ChatPage.session (chat pg)) = Some current →
        let sid := Chat.session_id current in
        let upload := Upload sid (mkFormData f sid) in
        match net 0 _ upload with
        | Chat.Err e =>
            map Async.request (Async.issued r) = [existT _ upload]
            ∧ docs (Async.final r) = docs pg
            ∧ uploader (Async.final r)
              = useDocument.mkState false
                  (Some (Chat.errorMessage "Failed to upload document" e))
        | Chat.Ok _ =>
            map Async.request (Async.issued r)
              = [existT _ upload; existT _ (Store (Chat.ListDocuments sid))]
            ∧ uploader (Async.final r) = useDocument.mkState false None
            ∧ Chat.useDocuments.isLoading (docs (Async.final r)) = false
            ∧ match net 1 _ (Store (Chat.ListDocuments sid)) with
              | Chat.Ok listed =>
                  Chat.useDocuments.documents (docs (Async.final r)) = default [] listed
                  ∧ Chat.useDocuments.error (docs (Async.final r)) = None
              | Chat.Err e =>
                  Chat.useDocuments.documents (docs (Async.final r))
                    = Chat.useDocuments.documents (docs pg)
                  ∧ Chat.useDocuments.error (docs (Async.final r))
                    = Some (Chat.errorMessage "Failed to fetch documents" e)
              end
        end.
Proof.
  intros net pg f. unfold Async.run, handleUploadDocument.
  destruct (Chat.useSession.currentSession (Chat.ChatPage.session (chat pg)))
    as [current|] eqn:Hcur; simpl.
  - split; [|split; [done|]].
    + destruct (net 0 _ (Upload _ _)); simpl; [|done].
      by destruct (net 1 _ (Store (Chat.ListDocuments _))).
    + intros c [= <-]. simpl.
      destruct (net 0 _ (Upload _ _)); simpl; [|done].
      by destruct (net 1 _ (Store (Chat.ListDocuments _))).
  - split; [done|]. split; [|done]. intros _. split; [done|]. by destruct pg.
Qed.

(** With no session nothing is sent; a refused upload is recorded and the
    list is kept; an accepted one shows the list of the server. *)
Lemma upload_handler_witness :
  Async.issued (Async.run (handleUploadDocument emptyPage report) server emptyPage) = []
  ∧ uploader (Async.final (Async.run (handleUploadDocument thesisPage report)
                                     (rejecting tooLarge) thesisPage))
    = useDocument.mkState false (Some "File too large")
  ∧ Chat.useDocuments.documents
      (Chat.ChatPage.docs
         (chat (Async.final (Async.run (handleUploadDocument thesisPage report) server
                                       thesisPage))))
    = [Chat.paper].
Proof.
  split; [|split].
  - destruct (upload_handler server emptyPage report) as (_ & H & _).
    by destruct (H eq_refl).
  - destruct (upload_handler (rejecting tooLarge) thesisPage report) as (_ & _ & H).
    specialize (H Chat.thesis eq_refl). simpl in H. destruct H as (_ & _ & H). exact H.
  - destruct (upload_handler server thesisPage report) as (_ & _ & H).
    specialize (H Chat.thesis eq_refl). simpl in H. destruct H as (_ & _ & _ & H & _).
    exact H.
Defined.

(** X23: [handleRetryDocument] never throws.  With no session selected it
    makes no call and changes nothing.  With a session selected the toast
    tells how the retry call went and nothing else: ["Failed to retry
    document"] when it failed, and then the list is not read; ["Retry started
    for document"] when it succeeded, and then the list is read again for the
    session, the toast staying also when that read fails. *)
Theorem retry_handler :
  ∀ (net : Async.Oracle Endpoint) (pg : Page) (documentId : string),
    let r := Async.run (handleRetryDocument pg documentId) net pg in
    let docs x := Chat.ChatPage.docs (chat x) in
    Async.completion r = Chat.Returned tt
    ∧ (Chat.useSession.currentSession (Chat.ChatPage.session (chat pg)) = None →
         Async.issued r = [] ∧ Async.final r = pg)
    ∧ ∀ current,
        Chat.useSession.currentSession (Chat.ChatPage.session (chat pg)) = Some current →
        let sid := Chat.session_id current in
        match net 0 _ (Retry documentId) with
        | Chat.Err e =>
            map Async.request (Async.issued r) = [existT _ (Retry documentId)]
            ∧ Chat.ChatPage.toast (chat (Async.final r))
              = Some (Chat.ChatPage.mkToast "Failed to retry document"
                                            Chat.ChatPage.ToastError)
            ∧ docs (Async.final r) = docs pg
        | Chat.Ok _ =>
            map Async.request (Async.issued r)
              = [existT _ (Retry documentId); existT _ (Store (Chat.ListDocuments sid))]
            ∧ Chat.ChatPage.toast (chat (Async.final r))
              = Some (Chat.ChatPage.mkToast "Retry started for document"
                                            Chat.ChatPage.ToastInfo)
            ∧ match net 1 _ (Store (Chat.ListDocuments sid)) with
              | Chat.Ok listed =>
                  Chat.useDocuments.documents (docs (Async.final r)) = default [] listed
              | Chat.Err e =>
                  Chat.useDocuments.documents (docs (Async.final r))
                    = Chat.useDocuments.documents (docs pg)
                  ∧ Chat.useDocuments.error (docs (Async.final r))
                    = Some (Chat.errorMessage "Failed to fetch documents" e)
              end
        end.
Proof.
  intros net pg documentId. unfold Async.run, handleRetryDocument.
  destruct (Chat.useSession.currentSession (Chat.ChatPage.session (chat pg)))
    as [current|] eqn:Hcur; simpl.
  - split; [|split; [done|]].
    + destruct (net 0 _ (Retry _)); simpl; [|done].
      by destruct (net 1 _ (Store (Chat.ListDocuments _))).
    + intros c [= <-]. simpl.
      destruct (net 0 _ (Retry _)); simpl; [|done].
      by destruct (net 1 _ (Store (Chat.ListDocuments _))).
  - split; [done|]. split; [|done]. intros _. split; [done|]. by destruct pg.
Qed.

Lemma retry_handler_witness :
  Chat.ChatPage.toast
    (chat (Async.final (Async.run (handleRetryDocument thesisPage "d1")
                                  (rejecting tooLarge) thesisPage)))
  = Some (Chat.ChatPage.mkToast "Failed to retry document" Chat.ChatPage.ToastError)
  ∧ Async.final (Async.run (handleRetryDocument emptyPage "d1") server emptyPage)
    = emptyPage.
Proof.
  split.
  - destruct (retry_handler (rejecting tooLarge) thesisPage "d1") as (_ & _ & H).
    specialize (H Chat.thesis eq_refl). simpl in H. destruct H as (_ & H & _). exact H.
  - destruct (retry_handler server emptyPage "d1") as (_ & H & _).
    by destruct (H eq_refl).
Defined.

(** X24: the upload button.  With no file picked nothing happens.  With a
    file picked the page does what [handleUploadDocument] does for that file,
    with the same calls, and the picker is empty afterwards, whether the
    upload succeeded or failed. *)
Theorem upload_button :
  ∀ (net : Async.Oracle Endpoint) (pg : Page),
    let r := Async.run (clickUpload pg) net pg in
    Async.completion r = Chat.Returned tt
    ∧ (DocumentUpload.selectedFile (picker pg) = None →
         Async.issued r = [] ∧ Async.final r = pg)
    ∧ ∀ f, DocumentUpload.selectedFile (picker pg) = Some f →
        let r' := Async.run (handleUploadDocument pg f) net pg in
        map Async.request (Async.issued r) = map Async.request (Async.issued r')
        ∧ chat (Async.final r) = chat (Async.final r')
        ∧ uploader (Async.final r) = uploader (Async.final r')
        ∧ DocumentUpload.selectedFile (picker (Async.final r)) = None.
Proof.
  intros net pg. unfold Async.run, clickUpload, DocumentUpload.handleUpload.
  destruct (DocumentUpload.selectedFile (picker pg)) as [f|] eqn:Hsel.
  - assert (Hrun :
      let r := Async.exec (handleUploadDocument pg f ;;
                           Async.lift picker set_picker
                             (DocumentUpload.setSelectedFile None)) net 0 [] pg in
      let r' := Async.exec (handleUploadDocument pg f) net 0 [] pg in
      Async.completion r = Chat.Returned tt
      ∧ map Async.request (Async.issued r) = map Async.request (Async.issued r')
      ∧ chat (Async.final r) = chat (Async.final r')
      ∧ uploader (Async.final r) = uploader (Async.final r')
      ∧ DocumentUpload.selectedFile (picker (Async.final r)) = None).
    { unfold handleUploadDocument.
      destruct (Chat.useSession.currentSession (Chat.ChatPage.session (chat pg)));
        simpl; [|done].
      destruct (net 0 _ (Upload _ _)); simpl; [|done].
      by destruct (net 1 _ (Store (Chat.ListDocuments _))). }
    destruct Hrun as (Hc & Hrest).
    split; [exact Hc|]. split; [done|]. intros f' [= <-]. exact Hrest.
  - simpl. split; [done|]. split; [|done]. intros _. split; [done|]. by destruct pg.
Qed.

(** The sample page has [report] picked; the server refuses it. *)
Lemma upload_button_witness :
  let r := Async.run (clickUpload thesisPage) (rejecting tooLarge) thesisPage in
  DocumentUpload.selectedFile (picker (Async.final r)) = None
  ∧ uploader (Async.final r) = useDocument.mkState false (Some "File too large").
Proof.
  intros r.
  destruct (upload_button (rejecting tooLarge) thesisPage) as (_ & _ & H).
  destruct (H report eq_refl) as (_ & _ & Hup & Hsel).
  split; [exact Hsel | exact Hup].
Defined.

End DocumentsProofs.
